(** * A shallow embedding of the Gemini CLI provider and its authentication
      provider

    Sources embedded:
    - [extensions/cline/src/core/api/providers/gemini-cli.ts]
      (class [GeminiCliHandler])
    - [extensions/cline/src/services/auth/providers/GeminiAuthenticationProvider.ts]
      (class [GeminiAuthenticationProvider])
    - the earlier proof-of-concept version of [gemini-cli.ts]
    - [mock-gemini-cli.js] (its argument loop)

    Conventions.  A JavaScript string is embedded as a Rocq [string]: one
    [ascii] per UTF-16 code unit, for strings whose code units are all below
    256.  Objects used as dictionaries ([process.env], the secret storage)
    are [gmap]s.  Code that logs, spawns, kills, shows dialogs, yields or
    throws is written in a small trace monad [M]: the list of effects it
    performs, in program order, together with how it ends and with the
    effects of the callbacks that it leaves registered, which run after it
    has ended. *)

From Stdlib Require Import ZArith Ascii String List Bool Lia.
From stdpp Require Import gmap strings list pretty.

Local Open Scope string_scope.
Local Open Scope list_scope.
Set Warnings "-register-all".

(* ===================================================================== *)
(** ** JavaScript string primitives used by the sources *)
(* ===================================================================== *)

Module JsString.

(** [String.prototype.startsWith], the building block of [includes]. *)
Fixpoint startsWith (s p : string) : bool :=
  match p, s with
  | EmptyString, _ => true
  | String _ _, EmptyString => false
  | String a p', String b s' => if Ascii.eqb a b then startsWith s' p' else false
  end.

(** [String.prototype.includes]: [p] occurs in [s] at some position. *)
Fixpoint includes (s p : string) : bool :=
  startsWith s p ||
  match s with
  | EmptyString => false
  | String _ s' => includes s' p
  end.

(** Lower-casing of one code unit below 256: A-Z, and the Latin-1 capitals
    0xC0-0xDE except the multiplication sign 0xD7, move up by 32. *)
Definition lowerChar (a : ascii) : ascii :=
  let n := N_of_ascii a in
  if ((65 <=? n) && (n <=? 90))%N then ascii_of_N (n + 32)
  else if ((192 <=? n) && (n <=? 222) && negb (n =? 215))%N then ascii_of_N (n + 32)
  else a.

(** [String.prototype.toLowerCase]. *)
Fixpoint toLowerCase (s : string) : string :=
  match s with
  | EmptyString => EmptyString
  | String a s' => String (lowerChar a) (toLowerCase s')
  end.

(** White space and line terminators of ECMAScript among the code units
    below 256: TAB, LF, VT, FF, CR, SP, NBSP. *)
Definition isJsSpace (a : ascii) : bool :=
  let n := N_of_ascii a in
  ((9 <=? n) && (n <=? 13) || (n =? 32) || (n =? 160))%N.

Fixpoint trimStart (s : string) : string :=
  match s with
  | EmptyString => EmptyString
  | String a s' => if isJsSpace a then trimStart s' else s
  end.

(** [trimEnd] keeps a code unit when it is not a space or when something
    is kept after it. *)
Fixpoint trimEnd (s : string) : string :=
  match s with
  | EmptyString => EmptyString
  | String a s' =>
      match trimEnd s' with
      | EmptyString => if isJsSpace a then EmptyString else String a EmptyString
      | t => String a t
      end
  end.

(** [String.prototype.trim]. *)
Definition trim (s : string) : string := trimEnd (trimStart s).

(** Truthiness of a string: only the empty string is falsy. *)
Definition truthy (s : string) : bool :=
  match s with EmptyString => false | String _ _ => true end.

(** [Array.prototype.join] with a separator. *)
Fixpoint join (sep : string) (l : list string) : string :=
  match l with
  | [] => ""
  | [x] => x
  | x :: rest => x +:+ sep +:+ join sep rest
  end.

(** Two strings that differ at most in the case of their letters. *)
Inductive eq_ci : string -> string -> Prop :=
| eq_ci_nil : eq_ci "" ""
| eq_ci_cons a b s t :
    lowerChar a = lowerChar b -> eq_ci s t -> eq_ci (String a s) (String b t).

(** [w] occurs in [s] when case is ignored. *)
Definition contains_ci (s w : string) : Prop :=
  exists pre mid post, s = pre +:+ mid +:+ post /\ eq_ci mid w.

(** Every code unit of the string is white space. *)
Inductive all_space : string -> Prop :=
| all_space_nil : all_space ""
| all_space_cons a s : isJsSpace a = true -> all_space s -> all_space (String a s).

End JsString.

Import JsString.


(* ===================================================================== *)
(** ** JavaScript errors and JSON.parse *)
(* ===================================================================== *)

(** A thrown JavaScript [Error]: its optional [code] property (set by Node on
    system errors such as ENOENT) and its [message]. *)
Record JsError := mkError { err_code : option string; err_message : string }.

#[global] Instance JsError_eq_dec : EqDecision JsError.
Proof. solve_decision. Defined.

Definition newError (msg : string) : JsError :=
  {| err_code := None; err_message := msg |}.

Module Json.

(** Parsed JSON values.  A number keeps its lexeme (the IEEE double that
    JavaScript builds is a function of it), a string is its list of UTF-16
    code units after escape decoding, and an object is its list of members
    in source order. *)
Inductive json :=
| JNull
| JBool (b : bool)
| JNumber (lexeme : string)
| JString (units : list N)
| JArray (items : list json)
| JObject (members : list (list N * json)).

(** The code units of a plain string. *)
Fixpoint units_of (s : string) : list N :=
  match s with
  | EmptyString => []
  | String a r => N_of_ascii a :: units_of r
  end.

(** JSON white space: space, tab, line feed, carriage return. *)
Definition isWs (a : ascii) : bool :=
  match a with
  | " " | "009" | "010" | "013" => true
  | _ => false
  end%char.

Fixpoint skipWs (s : string) : string :=
  match s with
  | String a r => if isWs a then skipWs r else s
  | EmptyString => s
  end.

Definition isDigit (a : ascii) : bool :=
  let n := N_of_ascii a in ((48 <=? n) && (n <=? 57))%N.

Definition hexVal (a : ascii) : option N :=
  let n := N_of_ascii a in
  if ((48 <=? n) && (n <=? 57))%N then Some (n - 48)%N
  else if ((65 <=? n) && (n <=? 70))%N then Some (n - 55)%N
  else if ((97 <=? n) && (n <=? 102))%N then Some (n - 87)%N
  else None.

(** The longest run of digits at the front of [s], and what follows. *)
Fixpoint takeDigits (s : string) : string * string :=
  match s with
  | String a r =>
      if isDigit a then let '(d, r') := takeDigits r in (String a d, r')
      else (EmptyString, s)
  | EmptyString => (EmptyString, s)
  end.

(** One or more digits. *)
Definition digits1 (s : string) : option (string * string) :=
  match takeDigits s with
  | (EmptyString, _) => None
  | p => Some p
  end.

(** The integer part: a lone 0, or a non-zero digit followed by digits. *)
Definition parseInt (s : string) : option (string * string) :=
  match s with
  | String "0" r => Some ("0", r)
  | String a r =>
      if isDigit a then let '(d, r') := takeDigits r in Some (String a d, r')
      else None
  | EmptyString => None
  end.

Definition parseFrac (s : string) : option (string * string) :=
  match s with
  | String "." r =>
      match digits1 r with
      | Some (d, r') => Some (String "." d, r')
      | None => None
      end
  | _ => Some (EmptyString, s)
  end.

Definition parseExp (s : string) : option (string * string) :=
  match s with
  | String e r =>
      if (Ascii.eqb e "e" || Ascii.eqb e "E")%char then
        let '(sg, r1) :=
          match r with
          | String c r' =>
              if (Ascii.eqb c "+" || Ascii.eqb c "-")%char
              then (String c EmptyString, r') else (EmptyString, r)
          | EmptyString => (EmptyString, r)
          end in
        match digits1 r1 with
        | Some (d, r2) => Some (String e (sg +:+ d), r2)
        | None => None
        end
      else Some (EmptyString, s)
  | EmptyString => Some (EmptyString, s)
  end.

(** A JSON number: [-? int frac? exp?]; the result is its lexeme. *)
Definition parseNumber (s : string) : option (string * string) :=
  let '(sg, s1) :=
    match s with
    | String "-" r => ("-", r)
    | _ => (EmptyString, s)
    end in
  match parseInt s1 with
  | Some (i, s2) =>
      match parseFrac s2 with
      | Some (f, s3) =>
          match parseExp s3 with
          | Some (e, s4) => Some (sg +:+ i +:+ f +:+ e, s4)
          | None => None
          end
      | None => None
      end
  | None => None
  end.

(** The body of a string literal, after the opening quote: code units up
    to the closing quote, escapes decoded; control characters below 0x20
    and unknown escapes are rejected. *)
Fixpoint parseChars (s : string) : option (list N * string) :=
  let cons (u : N) (r : option (list N * string)) :=
    match r with Some (us, r') => Some (u :: us, r') | None => None end in
  match s with
  | EmptyString => None
  | String "034" r => Some ([], r)
  | String "\" (String c r) =>
      match c with
      | "034" => cons 34%N (parseChars r)
      | "\" => cons 92%N (parseChars r)
      | "/" => cons 47%N (parseChars r)
      | "b" => cons 8%N (parseChars r)
      | "f" => cons 12%N (parseChars r)
      | "n" => cons 10%N (parseChars r)
      | "r" => cons 13%N (parseChars r)
      | "t" => cons 9%N (parseChars r)
      | "u" =>
          match r with
          | String h1 (String h2 (String h3 (String h4 r'))) =>
              match hexVal h1, hexVal h2, hexVal h3, hexVal h4 with
              | Some a, Some b, Some c', Some d =>
                  cons (a * 4096 + b * 256 + c' * 16 + d)%N (parseChars r')
              | _, _, _, _ => None
              end
          | _ => None
          end
      | _ => None
      end%char
  | String "\" EmptyString => None
  | String a r =>
      if (N_of_ascii a <? 32)%N then None else cons (N_of_ascii a) (parseChars r)
  end%char.

(** Recursive descent over values, array elements and object members.
    [fuel] bounds the nesting of calls; two units are spent for each level
    of nesting and for each separator, both of which consume input. *)
Fixpoint parseValue (fuel : nat) (s : string) : option (json * string) :=
  match fuel with
  | O => None
  | S f =>
      match skipWs s with
      | String "{" r =>
          match skipWs r with
          | String "}" r' => Some (JObject [], r')
          | _ =>
              match parseMembers f r with
              | Some (ms, r') => Some (JObject ms, r')
              | None => None
              end
          end
      | String "[" r =>
          match skipWs r with
          | String "]" r' => Some (JArray [], r')
          | _ =>
              match parseElements f r with
              | Some (vs, r') => Some (JArray vs, r')
              | None => None
              end
          end
      | String "034" r =>
          match parseChars r with
          | Some (us, r') => Some (JString us, r')
          | None => None
          end
      | String "t" (String "r" (String "u" (String "e" r))) => Some (JBool true, r)
      | String "f" (String "a" (String "l" (String "s" (String "e" r)))) =>
          Some (JBool false, r)
      | String "n" (String "u" (String "l" (String "l" r))) => Some (JNull, r)
      | s' =>
          match parseNumber s' with
          | Some (lx, r) => Some (JNumber lx, r)
          | None => None
          end
      end%char
  end
with parseElements (fuel : nat) (s : string) : option (list json * string) :=
  match fuel with
  | O => None
  | S f =>
      match parseValue f s with
      | Some (v, r) =>
          match skipWs r with
          | String "," r' =>
              match parseElements f r' with
              | Some (vs, r'') => Some (v :: vs, r'')
              | None => None
              end
          | String "]" r' => Some ([v], r')
          | _ => None
          end%char
      | None => None
      end
  end
with parseMembers (fuel : nat) (s : string)
  : option (list (list N * json) * string) :=
  match fuel with
  | O => None
  | S f =>
      match skipWs s with
      | String "034" r =>
          match parseChars r with
          | Some (k, r1) =>
              match skipWs r1 with
              | String ":" r2 =>
                  match parseValue f r2 with
                  | Some (v, r3) =>
                      match skipWs r3 with
                      | String "," r4 =>
                          match parseMembers f r4 with
                          | Some (ms, r5) => Some ((k, v) :: ms, r5)
                          | None => None
                          end
                      | String "}" r4 => Some ([(k, v)], r4)
                      | _ => None
                      end
                  | None => None
                  end
              | _ => None
              end
          | None => None
          end
      | _ => None
      end%char
  end.

(** [JSON.parse]: one value between optional white space, or a thrown
    SyntaxError (whose message is engine specific and never inspected by
    the callers). *)
Definition parse (s : string) : JsError + json :=
  match parseValue (2 * String.length s + 2) s with
  | Some (v, r) =>
      match skipWs r with
      | EmptyString => inr v
      | _ => inl (newError "SyntaxError: Unexpected non-whitespace character after JSON")
      end
  | None => inl (newError "SyntaxError: Unexpected token in JSON")
  end.

Definition is_object (v : json) : bool :=
  match v with JObject _ => true | _ => false end.

End Json.

(** The line feed as a one-character string. *)
Definition nl : string := String "010" EmptyString.

(** The double quote as a one-character string. *)
Definition dq : string := String "034" EmptyString.

(** The chunk of the specification's example: an object with one member
    [summary] whose value is the string [done]. *)
Definition summary_done : string :=
  "{" +:+ dq +:+ "summary" +:+ dq +:+ ": " +:+ dq +:+ "done" +:+ dq +:+ "}".


(* ===================================================================== *)
(** ** Effects: the trace monad *)
(* ===================================================================== *)

Inductive Level := INFO | WARN | ERROR.

(** The chunks of [ApiStream] that the provider yields. *)
Inductive ApiStreamChunk :=
| TextChunk (text : string)
| UsageChunk (inputTokens outputTokens cacheReadTokens cacheWriteTokens : Z).

(** What the code does to the world, in program order.  [Log] stands for
    the console line [[GeminiCLI:<id>] <LEVEL>: <message>] of [logInfo],
    [logWarning] and [logError]; [Spawn] is the call of
    [child_process.spawn], which may throw instead of starting a process;
    [Yield] hands a chunk to the consumer of the generator. *)
Inductive effect :=
| Log (level : Level) (correlationId message : string)
| Spawn (command : string) (args : list string) (env : gmap string string)
| SetTimeout (ms : Z)
| ClearTimeout
| StdinWrite (data : string)
| StdinEnd
| Kill (signal : string)
| GetSession (createIfNone : bool)
| ShowInformationMessage (message : string)
| ShowWarningMessage (message : string)
| Yield (chunk : ApiStreamChunk).

(** How a computation ends: it returns, it throws, or it awaits a promise
    that is never settled. *)
Inductive outcome (A : Type) :=
| Return (a : A)
| Throw (e : JsError)
| Pending.
Arguments Return {A} a.
Arguments Throw {A} e.
Arguments Pending {A}.

(** A computation performs effects while it runs, ends, and may leave
    callbacks registered (the listeners on a child process) that perform
    further effects after it has ended: the third component lists those
    later effects, in order. *)
Definition M (A : Type) : Type := list effect * outcome A * list effect.

Definition ret {A} (a : A) : M A := ([], Return a, []).
Definition throw {A} (e : JsError) : M A := ([], Throw e, []).
Definition emit (e : effect) : M unit := ([e], Return tt, []).

Definition bind {A B} (m : M A) (k : A -> M B) : M B :=
  match m with
  | (t, Return a, l) => let '(t', o, l') := k a in (t ++ t', o, l ++ l')
  | (t, Throw e, l) => (t, Throw e, l)
  | (t, Pending, l) => (t, Pending, l)
  end.

(** [try { m } catch (error) { h error }]. *)
Definition try_catch {A} (m : M A) (h : JsError -> M A) : M A :=
  match m with
  | (t, Throw e, l) => let '(t', o, l') := h e in (t ++ t', o, l ++ l')
  | other => other
  end.

#[global] Instance M_ret : MRet M := @ret.
#[global] Instance M_bind : MBind M := fun A B k m => bind m k.

(** The effects performed until the computation ends, and those of the
    callbacks it leaves behind. *)
Definition during {A} (m : M A) : list effect := fst (fst m).
Definition afterwards {A} (m : M A) : list effect := snd m.

(** Everything the computation causes, in the order in which it happens:
    the callbacks left behind run after the computation has ended. *)
Definition trace {A} (m : M A) : list effect := during m ++ afterwards m.
Definition result {A} (m : M A) : outcome A := snd (fst m).

(** [m] runs as a callback after the computation that registers it has
    ended. *)
Definition later (m : M unit) : M unit := ([], Return tt, trace m).

(** The chunks handed to the consumer, in order. *)
Fixpoint yields (t : list effect) : list ApiStreamChunk :=
  match t with
  | [] => []
  | Yield c :: t' => c :: yields t'
  | _ :: t' => yields t'
  end.

(** The modal confirmation dialogs shown, in order. *)
Fixpoint confirmations (t : list effect) : list string :=
  match t with
  | [] => []
  | ShowWarningMessage m :: t' => m :: confirmations t'
  | _ :: t' => confirmations t'
  end.

(** The argument vectors and environments of the calls of [spawn], in
    order. *)
Fixpoint spawned (t : list effect) : list (list string * gmap string string) :=
  match t with
  | [] => []
  | Spawn _ args env :: t' => (args, env) :: spawned t'
  | _ :: t' => spawned t'
  end.

(** The correlation ids that appear in the log lines and in the
    environment of the spawned processes, in order. *)
Fixpoint correlationIds (t : list effect) : list (option string) :=
  match t with
  | [] => []
  | Log _ cid _ :: t' => Some cid :: correlationIds t'
  | Spawn _ _ env :: t' => env !! "GEMINI_CLI_CORRELATION_ID" :: correlationIds t'
  | _ :: t' => correlationIds t'
  end.

(** [vscode.AuthenticationSession], as far as the sources read it.  The
    access token is optional because sessions are read back with
    [JSON.parse] and tested with [!!session.accessToken]. *)
Record AuthenticationSession := mkSession {
  session_id : string;
  accessToken : option string;
  account_id : string;
  account_label : string;
  scopes : list string
}.

(** [await p] for a promise that the host fulfils or rejects. *)
Definition await {A} (p : JsError + A) : M A :=
  match p with
  | inl e => throw e
  | inr a => ret a
  end.

(* ===================================================================== *)
(** ** gemini-cli.ts: class GeminiCliHandler *)
(* ===================================================================== *)

Module GeminiCli.

(** [interface GeminiCliHandlerOptions]; every field is optional. *)
Record GeminiCliHandlerOptions := mkOptions {
  geminiCliPath : option string;
  apiModelId : option string;
  timeout : option Z;
  useJsonMode : option bool;
  enableInteractiveMode : option bool;
  requireConfirmation : option bool
}.

(** [x || d] on an optional string: undefined and the empty string are
    falsy. *)
Definition strOr (x : option string) (d : string) : string :=
  match x with
  | Some s => if truthy s then s else d
  | None => d
  end.

(** [x || d] on an optional number: undefined and 0 are falsy. *)
Definition numOr (x : option Z) (d : Z) : Z :=
  match x with
  | Some 0%Z | None => d
  | Some n => n
  end.

Definition logInfo (correlationId message : string) : M unit :=
  emit (Log INFO correlationId message).
Definition logWarning (correlationId message : string) : M unit :=
  emit (Log WARN correlationId message).
Definition logError (correlationId message : string) : M unit :=
  emit (Log ERROR correlationId message).

(** *** Classification of one chunk of output *)

(** The objects returned by [parseCliOutput], one constructor per value of
    their [type] field ([content] is always the chunk itself). *)
Inductive ParsedOutput :=
| Reasoning (content : string)
| ToolCall (content : string) (requiresConfirmation : bool)
| ConfirmationRequest (content : string)
| Structured (content : string) (data : Json.json)
| Text (content : string).

Definition dangerousActions : list string :=
  [ "delete"; "remove"; "rm "; "DROP"; "truncate"; "format"; "sudo";
    "chmod 777"; "> /dev/null" ].

(** [requiresUserConfirmation]: [dangerousActions.some(...)]. *)
Definition requiresUserConfirmation (text : string) : bool :=
  existsb (fun action => includes (toLowerCase text) (toLowerCase action))
          dangerousActions.

(** The suffix of [s] that starts at its first opening brace. *)
Fixpoint fromFirstOpen (s : string) : option string :=
  match s with
  | EmptyString => None
  | String a r => if Ascii.eqb a "{" then Some s else fromFirstOpen r
  end.

(** The prefix of [s] that ends at its last closing brace. *)
Fixpoint throughLastClose (s : string) : option string :=
  match s with
  | EmptyString => None
  | String a r =>
      match throughLastClose r with
      | Some p => Some (String a p)
      | None => if Ascii.eqb a "}" then Some (String a EmptyString) else None
      end
  end.

(** [text.match(/\{[\s\S]*\}/)]: the leftmost opening brace, then greedily
    everything up to the last closing brace after it; [None] is the null
    of a failed match, [Some m] is [jsonMatch[0]]. *)
Definition matchBraces (text : string) : option string :=
  match fromFirstOpen text with
  | Some (String o r) =>
      match throughLastClose r with
      | Some p => Some (String o p)
      | None => None
      end
  | _ => None
  end.

(** [JSON.parse] as a computation that may throw. *)
Definition JSON_parse (s : string) : M Json.json :=
  match Json.parse s with
  | inl e => throw e
  | inr v => ret v
  end.

Definition hasReasoningMarker (text : string) : bool :=
  includes text "Thinking:" || includes text "Reasoning:".
Definition hasActionMarker (text : string) : bool :=
  includes text "Tool:" || includes text "Action:".
Definition hasConfirmationMarker (text : string) : bool :=
  includes text "Confirm:" || includes text "Proceed?" || includes text "[Y/n]".

(** [parseCliOutput]. *)
Definition parseCliOutput (text correlationId : string) : M ParsedOutput :=
  if hasReasoningMarker text then
    logInfo correlationId "Detected reasoning phase in CLI output";;
    mret (Reasoning text)
  else if hasActionMarker text then
    logInfo correlationId "Detected tool call in CLI output";;
    mret (ToolCall text (requiresUserConfirmation text))
  else if hasConfirmationMarker text then
    logInfo correlationId "Detected confirmation request in CLI output";;
    mret (ConfirmationRequest text)
  else
    found ← try_catch
      (match matchBraces text with
       | Some m =>
           parsed ← JSON_parse m;
           logInfo correlationId "Detected structured JSON output";;
           mret (Some (Structured text parsed))
       | None => mret None
       end)
      (fun _ => mret None);
    match found with
    | Some ev => mret ev
    | None => mret (Text text)
    end.

(** [handleUserConfirmation]; [answer] is what the modal warning dialog of
    the host resolves to (the label of the pressed button, undefined when
    dismissed) or rejects with. *)
Definition handleUserConfirmation (answer : JsError + option string)
    (text correlationId : string) : M bool :=
  try_catch
    (emit (ShowWarningMessage
       ("The AI wants to perform an action that may modify your system:"
        +:+ nl +:+ nl +:+ text +:+ nl +:+ nl +:+ "Do you want to proceed?"));;
     choice ← (match answer with inl e => throw e | inr c => ret c end);
     let approved :=
       match choice with Some c => String.eqb c "Proceed" | None => false end in
     logInfo correlationId
       ("User confirmation: " +:+ (if approved then "approved" else "denied"));;
     mret approved)
    (fun error =>
       logError correlationId "Error getting user confirmation";;
       mret false).

(** [estimateTokens]: [Math.ceil(text.length / 4)]. *)
Definition estimateTokens (text : string) : Z :=
  ((Z.of_nat (String.length text) + 3) / 4)%Z.

(** [createUserFriendlyError]. *)
Definition createUserFriendlyError (error : JsError) : JsError :=
  if bool_decide (err_code error = Some "ENOENT") then
    newError ("Gemini CLI not found. Please install the Gemini CLI and ensure it's in your PATH. "
              +:+ "Visit https://ai.google.dev/gemini-api/docs/cli for installation instructions.")
  else if includes (err_message error) "timeout" then
    newError ("The request timed out. This may happen with complex requests or if the "
              +:+ "Gemini CLI is unresponsive. Please try again with a simpler request.")
  else if includes (err_message error) "Authentication" then
    newError "Authentication failed. Please check your Google credentials and try authenticating again."
  else newError ("Gemini CLI error: " +:+ err_message error).

(** [buildCliArguments]. *)
Definition buildCliArguments (options : GeminiCliHandlerOptions) : list string :=
  let args := [] in
  let args := if bool_decide (useJsonMode options = Some true)
              then args ++ ["--json"] else args in
  let args := if bool_decide (enableInteractiveMode options <> Some false)
              then args ++ ["--interactive"] else args in
  let args := if bool_decide (requireConfirmation options <> Some false)
              then args ++ ["--confirm-actions"] else args in
  match apiModelId options with
  | Some id => if truthy id then args ++ ["--model"; id] else args
  | None => args
  end.

(** *** The conversation sent to the process *)

(** [Anthropic.Messages.MessageParam], as far as the handler reads it. *)
Inductive Role := user | assistant.
Inductive ContentBlock := TextBlock (text : string) | NonTextBlock.
Inductive Content := Plain (text : string) | Blocks (blocks : list ContentBlock).
Record MessageParam := mkMessage { role : Role; content : Content }.

Definition blockText (c : ContentBlock) : string :=
  match c with
  | TextBlock t => t
  | NonTextBlock => "[Non-text content]"
  end.

Definition contentText (c : Content) : string :=
  match c with
  | Plain t => t
  | Blocks bs => join " " (map blockText bs)
  end.

(** The loop body of [formatConversation], folded over the messages. *)
Fixpoint formatMessages (formatted : string) (messages : list MessageParam) : string :=
  match messages with
  | [] => formatted
  | message :: rest =>
      let r := match role message with user => "Human" | assistant => "Assistant" end in
      formatMessages (formatted +:+ r +:+ ": " +:+ contentText (content message) +:+ nl +:+ nl) rest
  end.

(** [formatConversation]. *)
Definition formatConversation (systemPrompt : string) (messages : list MessageParam) : string :=
  let formatted := "" in
  let formatted :=
    if truthy systemPrompt
    then formatted +:+ "System: " +:+ systemPrompt +:+ nl +:+ nl
    else formatted in
  trim (formatMessages formatted messages).

(** *** The child process *)

(** What the Node runtime delivers to the listeners registered on the
    child process, in the order it delivers them: data on stdout and
    stderr, the firing of the timer set with [setTimeout], and the close
    and error events of the process. *)
Inductive ProcEvent :=
| StdoutData (data : string)
| StderrData (data : string)
| TimerFired
| Close (code : option Z)
| ProcError (error : JsError).

(** The local variables of [executeStatefulCli] that the listeners share. *)
Record CliState := mkCliState {
  output : string;
  errorOutput : string;
  isComplete : bool;
  streamChunks : list ApiStreamChunk
}.

(** A number or null inside a template literal. *)
Definition showCode (code : option Z) : string :=
  match code with
  | Some n => pretty n
  | None => "null"
  end.

(** The listener on [cliProcess.stdout]. *)
Definition onStdoutData (correlationId : string) (data : string) (st : CliState)
  : M CliState :=
  let text := data in
  let st := mkCliState (output st +:+ text) (errorOutput st) (isComplete st)
                       (streamChunks st) in
  if negb (isComplete st) then
    parsedOutput ← parseCliOutput text correlationId;
    let chunk := TextChunk text in
    let st := mkCliState (output st) (errorOutput st) (isComplete st)
                         (streamChunks st ++ [chunk]) in
    match parsedOutput with
    | ConfirmationRequest _ =>
        logInfo correlationId "Confirmation request detected - would pause for user input"
    | _ => mret tt
    end;;
    match parsedOutput with
    | ToolCall _ true =>
        logWarning correlationId "Potentially dangerous tool call detected"
    | _ => mret tt
    end;;
    mret st
  else mret st.

(** The listener on [cliProcess.stderr]. *)
Definition onStderrData (correlationId : string) (data : string) (st : CliState)
  : M CliState :=
  let errorText := data in
  logWarning correlationId ("CLI stderr: " +:+ errorText);;
  mret (mkCliState (output st) (errorOutput st +:+ errorText) (isComplete st)
                   (streamChunks st)).

(** The callback given to [setTimeout]. *)
Definition onTimeout (correlationId : string) (timeout : Z) : M unit :=
  logWarning correlationId ("CLI process timeout after " +:+ pretty timeout +:+ "ms");;
  emit (Kill "SIGTERM").

(** The listener on the close event of the process, up to the call of
    [resolve]. *)
Definition onClose (correlationId : string) (code : option Z) (st : CliState)
  : M CliState :=
  emit ClearTimeout;;
  logInfo correlationId ("CLI process completed with exit code: " +:+ showCode code);;
  mret (mkCliState (output st) (errorOutput st) true (streamChunks st)).

(** The listener on the error event of the process, up to the call of
    [reject]. *)
Definition onError (correlationId : string) (error : JsError) (st : CliState)
  : M CliState :=
  emit ClearTimeout;;
  logError correlationId "CLI process error";;
  mret (mkCliState (output st) (errorOutput st) true (streamChunks st)).

(** The listeners once the promise is settled.  They stay registered on
    the process, so each later event still runs its listener; [resolve] and
    [reject] no longer do anything, and the timer, which the listener that
    settled the promise has cleared, does not fire. *)
Fixpoint afterExit (correlationId : string) (events : list ProcEvent) (st : CliState)
  : M unit :=
  match events with
  | [] => mret tt
  | StdoutData d :: rest =>
      st' ← onStdoutData correlationId d st;
      afterExit correlationId rest st'
  | StderrData d :: rest =>
      st' ← onStderrData correlationId d st;
      afterExit correlationId rest st'
  | TimerFired :: rest => afterExit correlationId rest st
  | Close code :: rest =>
      st' ← onClose correlationId code st;
      afterExit correlationId rest st'
  | ProcError error :: rest =>
      st' ← onError correlationId error st;
      afterExit correlationId rest st'
  end.

(** [await new Promise(...)]: the listeners run on the events in order
    until the close listener resolves the promise with the exit code or
    the error listener rejects it; the events that follow find the
    listeners still registered and are handled after the generator has
    gone on.  When the events end before a close or an error, the promise
    is never settled. *)
Fixpoint awaitExit (correlationId : string) (timeout : Z)
    (events : list ProcEvent) (st : CliState) : M (CliState * option Z) :=
  match events with
  | [] => ([], Pending, [])
  | StdoutData d :: rest =>
      st' ← onStdoutData correlationId d st;
      awaitExit correlationId timeout rest st'
  | StderrData d :: rest =>
      st' ← onStderrData correlationId d st;
      awaitExit correlationId timeout rest st'
  | TimerFired :: rest =>
      onTimeout correlationId timeout;;
      awaitExit correlationId timeout rest st
  | Close code :: rest =>
      st' ← onClose correlationId code st;
      later (afterExit correlationId rest st');;
      mret (st', code)
  | ProcError error :: rest =>
      st' ← onError correlationId error st;
      later (afterExit correlationId rest st');;
      throw error
  end.

(** *** One invocation of [createMessage] *)

(** What the surroundings answer during one invocation: the bytes drawn
    by [randomBytes(8).toString('hex')], [process.env], the answers of
    [vscode.authentication.getSession] without and with [createIfNone],
    the button chosen in the information message, and what the call of
    [child_process.spawn] does: it throws at once (as it does on a command
    or on arguments that it rejects), or it returns a child process, given
    by the events that the process emits. *)
Record Host := mkHost {
  randomHex : string;
  processEnv : gmap string string;
  silentSession : JsError + option AuthenticationSession;
  infoChoice : option string;
  createdSession : JsError + AuthenticationSession;
  child : JsError + list ProcEvent
}.

(** The events of the spawned process; there are none when [spawn] threw
    and no process exists. *)
Definition procEvents (h : Host) : list ProcEvent :=
  match child h with
  | inr events => events
  | inl _ => []
  end.

(** [spawn(command, args, { env })]: the call is made, and it throws or
    returns the child process. *)
Definition spawn (h : Host) (command : string) (args : list string)
    (env : gmap string string) : M (list ProcEvent) :=
  emit (Spawn command args env);;
  match child h with
  | inl error => throw error
  | inr events => mret events
  end.

(** [ensureAuthentication]. *)
Definition ensureAuthentication (h : Host) (correlationId : string) : M unit :=
  try_catch
    (emit (GetSession false);;
     session ← await (silentSession h);
     match session with
     | Some _ => mret tt
     | None =>
         emit (ShowInformationMessage
           "Gemini CLI requires Google authentication. Would you like to authenticate now?");;
         if bool_decide (infoChoice h = Some "Authenticate") then
           emit (GetSession true);;
           _ ← await (createdSession h);
           mret tt
         else throw (newError "Authentication required for Gemini CLI access")
     end;;
     logInfo correlationId "Authentication verified")
    (fun error =>
       logError correlationId "Authentication failed";;
       throw (newError ("Authentication failed: " +:+ err_message error))).

(** The [env] option given to [spawn]. *)
Definition spawnEnv (options : GeminiCliHandlerOptions) (h : Host)
    (correlationId : string) : gmap string string :=
  <["GEMINI_CLI_MODE" :=
      if bool_decide (useJsonMode options = Some true) then "json" else "interactive"]>
    (<["GEMINI_CLI_CORRELATION_ID" := correlationId]> (processEnv h)).

(** [executeStatefulCli], run until the consumer has drained it. *)
Definition executeStatefulCli (options : GeminiCliHandlerOptions) (h : Host)
    (prompt correlationId : string) : M unit :=
  let cliPath := strOr (geminiCliPath options) "gemini" in
  let timeout := numOr (timeout options) 60000 in
  logInfo correlationId ("Starting CLI execution with path: " +:+ cliPath);;
  try_catch
    (let cliArgs := buildCliArguments options in
     cliProcess ← spawn h cliPath cliArgs (spawnEnv options h correlationId);
     let st := mkCliState "" "" false [] in
     emit (SetTimeout timeout);;
     emit (StdinWrite (prompt +:+ nl));;
     emit StdinEnd;;
     '(st, exitCode) ← awaitExit correlationId timeout cliProcess st;
     if negb (bool_decide (exitCode = Some 0%Z)) then
       throw (newError ("Gemini CLI exited with code " +:+ showCode exitCode
                        +:+ ". Error: " +:+ errorOutput st))
     else if negb (truthy (trim (output st))) then
       throw (newError "Gemini CLI produced no output")
     else
       emit (Yield (TextChunk (output st)));;
       emit (Yield (UsageChunk (estimateTokens prompt) (estimateTokens (output st)) 0 0));;
       logInfo correlationId "CLI execution completed successfully")
    (fun error =>
       logError correlationId "CLI execution failed";;
       throw error).

(** The body of [createMessage]. *)
Definition createMessage (options : GeminiCliHandlerOptions)
    (systemPrompt : string) (messages : list MessageParam) (h : Host) : M unit :=
  let correlationId := randomHex h in
  try_catch
    (ensureAuthentication h correlationId;;
     let formattedPrompt := formatConversation systemPrompt messages in
     executeStatefulCli options h formattedPrompt correlationId)
    (fun error =>
       logError correlationId "CLI execution failed";;
       throw (createUserFriendlyError error)).

(** An invocation together with the callbacks it leaves behind, taken as
    one computation. *)
Definition settled {A} (m : M A) : M A := (trace m, result m, []).

(** Modelled from the spec: the decorator [withRetry] of the module
    [../retry], which is not among the sources.  The decorated generator
    is invoked with the arguments of the call; when it throws an error that
    the recovery policy retries and attempts remain out of [maxRetries]
    (the bounded number of attempts of section 4.6), it is invoked again
    with the same arguments; any other error surfaces.  Which errors the
    policy retries is the parameter [retryable]; [world n] is what the
    surroundings answer during invocation number [n].  An invocation is
    taken with everything it causes, the listeners it leaves behind
    included, before the next one starts. *)
Fixpoint retryLoop (retryable : JsError -> bool) (method : Host -> M unit)
    (world : nat -> Host) (attempt remaining : nat) : M unit :=
  match remaining with
  | O => mret tt
  | S n =>
      try_catch (settled (method (world attempt)))
        (fun error =>
           if retryable error && negb (n =? 0)%nat
           then retryLoop retryable method world (S attempt) n
           else throw error)
  end.

Definition withRetry (retryable : JsError -> bool) (maxRetries : nat)
    (method : Host -> M unit) (world : nat -> Host) : M unit :=
  retryLoop retryable method world 0 maxRetries.

(** [createMessage] as decorated: [@withRetry({ maxRetries: 2, ... })]. *)
Definition createMessageWithRetry (retryable : JsError -> bool)
    (options : GeminiCliHandlerOptions) (systemPrompt : string)
    (messages : list MessageParam) (world : nat -> Host) : M unit :=
  withRetry retryable 2 (createMessage options systemPrompt messages) world.

(** *** Vocabulary for stating the properties *)

(** The code unit [c] occurs in [s]. *)
Fixpoint hasChar (c : ascii) (s : string) : bool :=
  match s with
  | EmptyString => false
  | String a r => Ascii.eqb a c || hasChar c r
  end.

(** [m] is the part of [text] from its first opening brace through its
    last closing brace. *)
Definition brace_span (text m : string) : Prop :=
  exists pre body post,
    text = pre +:+ "{" +:+ body +:+ "}" +:+ post /\
    m = "{" +:+ body +:+ "}" /\
    hasChar "{" pre = false /\ hasChar "}" post = false.

(** The first close or error event, which settles the wait for the exit
    of the process. *)
Fixpoint exitOf (events : list ProcEvent) : option (JsError + option Z) :=
  match events with
  | [] => None
  | Close code :: _ => Some (inr code)
  | ProcError e :: _ => Some (inl e)
  | _ :: rest => exitOf rest
  end.

(** The chunks that arrive on stdout before the process exits, in order
    of arrival. *)
Fixpoint stdoutChunks (events : list ProcEvent) : list string :=
  match events with
  | [] => []
  | StdoutData d :: rest => d :: stdoutChunks rest
  | Close _ :: _ | ProcError _ :: _ => []
  | _ :: rest => stdoutChunks rest
  end.

(** The chunks that arrive on stderr before the process exits. *)
Fixpoint stderrChunks (events : list ProcEvent) : list string :=
  match events with
  | [] => []
  | StderrData d :: rest => d :: stderrChunks rest
  | Close _ :: _ | ProcError _ :: _ => []
  | _ :: rest => stderrChunks rest
  end.

(** Concatenation of chunks. *)
Fixpoint concat (l : list string) : string :=
  match l with
  | [] => ""
  | x :: rest => x +:+ concat rest
  end.

(** The timer fires before the process exits. *)
Fixpoint timerFires (events : list ProcEvent) : bool :=
  match events with
  | [] => false
  | TimerFired :: _ => true
  | Close _ :: _ | ProcError _ :: _ => false
  | _ :: rest => timerFires rest
  end.

(** The effects of the listeners of one process: log lines under the
    correlation id of the invocation, the SIGTERM of the timer, and the
    clearing of the timer. *)
Inductive supervision (correlationId : string) : effect -> Prop :=
| sup_log level message : supervision correlationId (Log level correlationId message)
| sup_kill : supervision correlationId (Kill "SIGTERM")
| sup_clear : supervision correlationId ClearTimeout.

(** An effect that is attributed to the correlation id: a log line or a
    spawn that carries the id; no effect is a confirmation dialog. *)
Definition attributed (correlationId : string) (e : effect) : Prop :=
  match e with
  | Log _ c _ => c = correlationId
  | Spawn _ _ env => env !! "GEMINI_CLI_CORRELATION_ID" = Some correlationId
  | ShowWarningMessage _ => False
  | _ => True
  end.

(** The effects that an invocation of [createMessage] with correlation id
    [correlationId] can perform. *)
Inductive performs (options : GeminiCliHandlerOptions) (h : Host)
    (correlationId : string) : effect -> Prop :=
| p_log level message : performs options h correlationId (Log level correlationId message)
| p_spawn :
    performs options h correlationId
      (Spawn (strOr (geminiCliPath options) "gemini") (buildCliArguments options)
             (spawnEnv options h correlationId))
| p_set_timeout :
    performs options h correlationId (SetTimeout (numOr (timeout options) 60000))
| p_clear_timeout : performs options h correlationId ClearTimeout
| p_stdin_write data : performs options h correlationId (StdinWrite data)
| p_stdin_end : performs options h correlationId StdinEnd
| p_kill : performs options h correlationId (Kill "SIGTERM")
| p_get_session createIfNone : performs options h correlationId (GetSession createIfNone)
| p_information message : performs options h correlationId (ShowInformationMessage message)
| p_yield chunk : performs options h correlationId (Yield chunk).

(** What [executeStatefulCli] does before it waits for the process. *)
Definition execPrologue (options : GeminiCliHandlerOptions) (h : Host)
    (prompt correlationId : string) : list effect :=
  [ Log INFO correlationId
      ("Starting CLI execution with path: " +:+ strOr (geminiCliPath options) "gemini");
    Spawn (strOr (geminiCliPath options) "gemini") (buildCliArguments options)
          (spawnEnv options h correlationId);
    SetTimeout (numOr (timeout options) 60000);
    StdinWrite (prompt +:+ nl);
    StdinEnd ].

(** What [executeStatefulCli] does once the wait is over, as a function
    of how the process exits and of what it wrote. *)
Definition execEnding (prompt correlationId : string) (events : list ProcEvent)
  : list effect * outcome unit :=
  let out := concat (stdoutChunks events) in
  let err := concat (stderrChunks events) in
  let failed e := ([Log ERROR correlationId "CLI execution failed"], Throw e) in
  match exitOf events with
  | None => ([], Pending)
  | Some (inl e) => failed e
  | Some (inr code) =>
      if negb (bool_decide (code = Some 0%Z)) then
        failed (newError ("Gemini CLI exited with code " +:+ showCode code
                          +:+ ". Error: " +:+ err))
      else if negb (truthy (trim out)) then
        failed (newError "Gemini CLI produced no output")
      else
        ([ Yield (TextChunk out);
           Yield (UsageChunk (estimateTokens prompt) (estimateTokens out) 0 0);
           Log INFO correlationId "CLI execution completed successfully" ],
         Return tt)
  end.

(** *** Further vocabulary *)

(** The [content] field of the object returned by [parseCliOutput]. *)
Definition contentOf (ev : ParsedOutput) : string :=
  match ev with
  | Reasoning c | ToolCall c _ | ConfirmationRequest c | Structured c _ | Text c => c
  end.

(** The writes to the standard input of the process, in order. *)
Fixpoint stdinWrites (t : list effect) : list string :=
  match t with
  | [] => []
  | StdinWrite d :: t' => d :: stdinWrites t'
  | _ :: t' => stdinWrites t'
  end.

(** How many signals were sent to the process. *)
Fixpoint kills (t : list effect) : nat :=
  match t with
  | [] => 0
  | Kill _ :: t' => S (kills t')
  | _ :: t' => kills t'
  end.

(** How many times the timer fires before the process exits. *)
Fixpoint timerFirings (events : list ProcEvent) : nat :=
  match events with
  | [] => 0
  | TimerFired :: rest => S (timerFirings rest)
  | Close _ :: _ | ProcError _ :: _ => 0
  | _ :: rest => timerFirings rest
  end.

(** The three fixed messages of [createUserFriendlyError]. *)
Definition notFoundMessage : string :=
  err_message (createUserFriendlyError (mkError (Some "ENOENT") "")).
Definition timedOutMessage : string :=
  err_message (createUserFriendlyError (newError "timeout")).
Definition authenticationMessage : string :=
  err_message (createUserFriendlyError (newError "Authentication")).

(** The requests for a session and the prompts to authenticate, in order. *)
Fixpoint authEffects (t : list effect) : list effect :=
  match t with
  | [] => []
  | GetSession b :: t' => GetSession b :: authEffects t'
  | ShowInformationMessage m :: t' => ShowInformationMessage m :: authEffects t'
  | _ :: t' => authEffects t'
  end.

(** How many close and error events the process emits in all. *)
Fixpoint exits (events : list ProcEvent) : nat :=
  match events with
  | [] => 0
  | Close _ :: rest | ProcError _ :: rest => S (exits rest)
  | _ :: rest => exits rest
  end.

(** How many times the timer was cleared. *)
Fixpoint clears (t : list effect) : nat :=
  match t with
  | [] => 0
  | ClearTimeout :: t' => S (clears t')
  | _ :: t' => clears t'
  end.

(** The text that [formatConversation] appends for one message. *)
Definition messageLine (message : MessageParam) : string :=
  match role message with user => "Human" | assistant => "Assistant" end
  +:+ ": " +:+ contentText (content message) +:+ nl +:+ nl.

(** First and last code unit of a string. *)
Definition firstChar (s : string) : option ascii :=
  match s with
  | EmptyString => None
  | String a _ => Some a
  end.

Fixpoint lastChar (s : string) : option ascii :=
  match s with
  | EmptyString => None
  | String a EmptyString => Some a
  | String _ r => lastChar r
  end.

End GeminiCli.

(* ===================================================================== *)
(** ** GeminiAuthenticationProvider.ts: class GeminiAuthenticationProvider *)
(* ===================================================================== *)

Module GeminiAuth.

Definition SCOPES : list string :=
  [ "https://www.googleapis.com/auth/generative-language";
    "https://www.googleapis.com/auth/cloud-platform" ].

(** The tokens that [oauth2Client.getToken] answers with. *)
Record Tokens := mkTokens {
  access_token : option string;
  refresh_token : option string;
  expiry_date : option Z
}.

(** What the secret storage holds under a key.  The storage keeps JSON
    text; [SessionData] stands for the text of a session object with an
    optional [refreshToken] member (what the provider itself writes), and
    [Malformed] for text that is empty or that [JSON.parse] rejects (to the
    provider a read that the storage rejects looks the same: the catch of
    [getStoredSession] answers null to both). *)
Inductive Secret :=
| Malformed
| SessionData (session : AuthenticationSession) (refreshToken : option string).

(** The argument of [_onDidChangeSessions.fire]. *)
Record SessionsChange := mkChange {
  added : list AuthenticationSession;
  removed : list AuthenticationSession
}.

(** The four ways of obtaining a credential. *)
Inductive Tier := TierSession | TierApiKey | TierAdc | TierOAuth.

(** The mutable surroundings of the provider: the secret storage, the
    text of the status bar item, the session changes fired so far, and
    (ghost state, for stating the order of resolution) the tiers that
    [createSession] has invoked, in order.  The secret storage belongs to
    the host, and the promises of its [store] and [delete] may be rejected:
    [storeRejects] and [deleteRejects] hold the error they are rejected
    with, if they are. *)
Record Provider := mkProvider {
  secretStorage : gmap string Secret;
  statusBarText : string;
  sessionChanges : list SessionsChange;
  invoked : list Tier;
  storeRejects : option JsError;
  deleteRejects : option JsError
}.

(** The request that the browser sends to the local callback server. *)
Record CallbackRequest := mkCallback {
  cb_error : option string;
  cb_code : option string;
  cb_state : option string
}.

(** How the browser round trip of the consent flow goes: the local server
    cannot listen, no callback arrives within the five minutes, or a
    callback arrives and (when the code is exchanged) the token endpoint
    answers [exchange]. *)
Inductive RoundTrip :=
| ListenFailed (e : JsError)
| NoCallback
| CallbackArrives (request : CallbackRequest) (exchange : JsError + Tokens).

(** What the provider reads from outside: the clock, the environment, the
    state drawn by [randomBytes(16)], and the round trip.
    Modelled from the spec: [defaultCredentials] is the credential that the
    ambient default credentials of the platform offer, if any (the third
    tier of section 4.1); no code of the provider reads them. *)
Record World := mkWorld {
  now : Z;
  env : gmap string string;
  oauthState : string;
  roundTrip : RoundTrip;
  defaultCredentials : option AuthenticationSession
}.

(** State and exceptions. *)
Definition PM (A : Type) : Type := Provider -> Provider * (JsError + A).

Definition pret {A} (a : A) : PM A := fun p => (p, inr a).
Definition pthrow {A} (e : JsError) : PM A := fun p => (p, inl e).
Definition pbind {A B} (m : PM A) (k : A -> PM B) : PM B :=
  fun p => match m p with
           | (p', inr a) => k a p'
           | (p', inl e) => (p', inl e)
           end.
Definition ptry {A} (m : PM A) (h : JsError -> PM A) : PM A :=
  fun p => match m p with
           | (p', inl e) => h e p'
           | r => r
           end.
Definition modify (f : Provider -> Provider) : PM unit := fun p => (f p, inr tt).
Definition get : PM Provider := fun p => (p, inr p).

#[global] Instance PM_ret : MRet PM := @pret.
#[global] Instance PM_bind : MBind PM := fun A B k m => pbind m k.

(** [updateStatusBar]. *)
Definition updateStatusBar (status : option string) : PM unit :=
  modify (fun p =>
    mkProvider (secretStorage p)
      (match status with
       | Some s => if truthy s then "$(key) Gemini: " +:+ s
                   else "$(key) Gemini: Click to authenticate"
       | None => "$(key) Gemini: Click to authenticate"
       end)
      (sessionChanges p) (invoked p) (storeRejects p) (deleteRejects p)).

(** [await secretStorage.store(key, JSON.stringify(...))]: the value is
    stored, or the promise is rejected and nothing is stored. *)
Definition store (key : string) (v : Secret) : PM unit :=
  p ← get;
  match storeRejects p with
  | Some error => pthrow error
  | None =>
      modify (fun p =>
        mkProvider (<[key := v]> (secretStorage p)) (statusBarText p)
                   (sessionChanges p) (invoked p) (storeRejects p) (deleteRejects p))
  end.

Definition fire (c : SessionsChange) : PM unit :=
  modify (fun p =>
    mkProvider (secretStorage p) (statusBarText p) (sessionChanges p ++ [c]) (invoked p)
               (storeRejects p) (deleteRejects p)).

(** Ghost: note that a tier is being invoked. *)
Definition invoke (t : Tier) : PM unit :=
  modify (fun p =>
    mkProvider (secretStorage p) (statusBarText p) (sessionChanges p) (invoked p ++ [t])
               (storeRejects p) (deleteRejects p)).

(** [getStoredSession]. *)
Definition getStoredSession : PM (option AuthenticationSession) :=
  ptry
    (p ← get;
     match secretStorage p !! "gemini-oauth-session" with
     | Some (SessionData s _) => mret (Some s)
     | Some Malformed => pthrow (newError "SyntaxError: Unexpected token in JSON")
     | None => mret None
     end)
    (fun _ => mret None).

(** [isValidSession]: [!!session.accessToken]. *)
Definition isValidSession (session : AuthenticationSession) : bool :=
  match accessToken session with
  | Some t => truthy t
  | None => false
  end.

(** [getSessions]. *)
Definition getSessions (scopes : list string) : PM (list AuthenticationSession) :=
  ptry
    (storedSession ← getStoredSession;
     match storedSession with
     | Some s => if isValidSession s then mret [s] else mret []
     | None => mret []
     end)
    (fun _ => mret []).

(** [tryApiKeyAuthentication]. *)
Definition apiKeySession (apiKey : string) : AuthenticationSession :=
  mkSession "gemini-api-key" (Some apiKey) "api-key-user" "API Key Authentication" SCOPES.

Definition tryApiKeyAuthentication (w : World) : PM (option AuthenticationSession) :=
  match env w !! "GEMINI_API_KEY" with
  | Some apiKey =>
      if truthy apiKey then
        let session := apiKeySession apiKey in
        store "gemini-oauth-session" (SessionData session None);;
        mret (Some session)
      else mret None
  | None => mret None
  end.

(** [tryAdcAuthentication]. *)
Definition tryAdcAuthentication : PM (option AuthenticationSession) :=
  ptry (mret None) (fun _ => mret None).

Definition oauthSession (w : World) (tokens : Tokens) : AuthenticationSession :=
  mkSession ("gemini-oauth-" +:+ pretty (now w)) (access_token tokens)
            "oauth-user" "Google OAuth" SCOPES.

Definition present (x : option string) : bool :=
  match x with
  | Some s => truthy s
  | None => false
  end.

(** [handleCallback], for the one pending state [oauthState w].  The
    answer is how the callback settles the pending promise, if it does. *)
Definition handleCallback (w : World) (request : CallbackRequest)
    (exchange : JsError + Tokens) : PM (option (JsError + AuthenticationSession)) :=
  let pending := bool_decide (cb_state request = Some (oauthState w)) in
  if present (cb_error request) then
    if pending
    then mret (Some (inl (newError ("OAuth error: " +:+ default "" (cb_error request)))))
    else mret None
  else if negb (present (cb_code request)) || negb (present (cb_state request)) then
    if pending
    then mret (Some (inl (newError "Missing authorization code or state")))
    else mret None
  else if negb pending then mret None
  else
    ptry
      (tokens ← (match exchange with inr tokens => mret tokens | inl e => pthrow e end);
       let session := oauthSession w tokens in
       store "gemini-oauth-session" (SessionData session (refresh_token tokens));;
       mret (Some (inr session)))
      (fun error => mret (Some (inl error))).

(** [performOAuthFlow]: the promise is settled by the callback, by the
    failure of the local server, or by the five-minute timer. *)
Definition performOAuthFlow (w : World) (scopes : list string) : PM AuthenticationSession :=
  match roundTrip w with
  | ListenFailed e => pthrow e
  | NoCallback => pthrow (newError "Authentication timeout")
  | CallbackArrives request exchange =>
      settled ← handleCallback w request exchange;
      match settled with
      | Some (inr session) => mret session
      | Some (inl e) => pthrow e
      | None => pthrow (newError "Authentication timeout")
      end
  end.

(** [createSession]. *)
Definition createSession (w : World) (scopes : list string) : PM AuthenticationSession :=
  ptry
    (updateStatusBar (Some "Authenticating...");;
     invoke TierSession;;
     existingSession ← getStoredSession;
     match existingSession with
     | Some s =>
         if isValidSession s then
           updateStatusBar (Some "Authenticated");; mret (Some s)
         else mret None
     | None => mret None
     end ≫= fun found =>
     match found with
     | Some s => mret s
     | None =>
         invoke TierApiKey;;
         apiKeySession ← tryApiKeyAuthentication w;
         match apiKeySession with
         | Some s => updateStatusBar (Some "Authenticated (API Key)");; mret s
         | None =>
             invoke TierAdc;;
             adcSession ← tryAdcAuthentication;
             match adcSession with
             | Some s => updateStatusBar (Some "Authenticated (ADC)");; mret s
             | None =>
                 invoke TierOAuth;;
                 session ← performOAuthFlow w scopes;
                 updateStatusBar (Some "Authenticated");;
                 fire (mkChange [session] []);;
                 mret session
             end
         end
     end)
    (fun error =>
       updateStatusBar (Some "Authentication Failed");;
       pthrow (newError ("Authentication failed: " +:+ err_message error))).

(** *** Vocabulary for stating the properties *)

(** What each tier has to offer, taken on its own and read off the
    surroundings, not off the code: the stored session when it holds a
    token; the session made from the API key of the environment; the
    default credentials of the platform; and the session that the consent
    of the user grants, that is, the callback comes back for the pending
    state with an authorization code and without an error, and the token
    endpoint exchanges the code for tokens. *)
Definition storedCredential (p : Provider) : option AuthenticationSession :=
  match secretStorage p !! "gemini-oauth-session" with
  | Some (SessionData s _) => if isValidSession s then Some s else None
  | _ => None
  end.

Definition apiKeyCredential (w : World) : option AuthenticationSession :=
  match env w !! "GEMINI_API_KEY" with
  | Some apiKey => if truthy apiKey then Some (apiKeySession apiKey) else None
  | None => None
  end.

Definition consentCredential (w : World) : option AuthenticationSession :=
  match roundTrip w with
  | CallbackArrives request (inr tokens) =>
      if bool_decide (cb_state request = Some (oauthState w))
         && present (cb_state request) && present (cb_code request)
         && negb (present (cb_error request))
      then Some (oauthSession w tokens)
      else None
  | _ => None
  end.

Definition noProvider : Provider := mkProvider ∅ "" [] [] None None.

Definition tierOutcome (w : World) (p : Provider) (t : Tier)
  : option AuthenticationSession :=
  match t with
  | TierSession => storedCredential p
  | TierApiKey => apiKeyCredential w
  | TierAdc => defaultCredentials w
  | TierOAuth => consentCredential w
  end.

(** How the consent flow ends, in closed form: the error of the local
    server, the time-out when no callback settles the pending promise, the
    error that the callback reports, that the token endpoint answers or
    that the storage rejects the session with, or the session granted and
    the refresh token stored with it. *)
Definition consentResult (w : World) (storeRejects : option JsError)
  : JsError + (AuthenticationSession * option string) :=
  match roundTrip w with
  | ListenFailed e => inl e
  | NoCallback => inl (newError "Authentication timeout")
  | CallbackArrives request exchange =>
      if bool_decide (cb_state request = Some (oauthState w)) then
        if present (cb_error request) then
          inl (newError ("OAuth error: " +:+ default "" (cb_error request)))
        else if negb (present (cb_code request)) || negb (present (cb_state request)) then
          inl (newError "Missing authorization code or state")
        else
          match exchange, storeRejects with
          | inl e, _ => inl e
          | inr _, Some e => inl e
          | inr tokens, None => inr (oauthSession w tokens, refresh_token tokens)
          end
      else inl (newError "Authentication timeout")
  end.

(** The order of the specification: session, API key, default credentials,
    consent. *)
Definition tierOrder : list Tier := [TierSession; TierApiKey; TierAdc; TierOAuth].

(** *** The remaining methods of the provider *)

(** [await secretStorage.delete(key)]: the value is deleted, or the
    promise is rejected and nothing is deleted. *)
Definition deleteSecret (key : string) : PM unit :=
  p ← get;
  match deleteRejects p with
  | Some error => pthrow error
  | None =>
      modify (fun p =>
        mkProvider (delete key (secretStorage p)) (statusBarText p)
                   (sessionChanges p) (invoked p) (storeRejects p) (deleteRejects p))
  end.

(** [removeSession]. *)
Definition removeSession (sessionId : string) : PM unit :=
  ptry
    (session ← getStoredSession;
     match session with
     | Some s =>
         if String.eqb (session_id s) sessionId then
           deleteSecret "gemini-oauth-session";;
           updateStatusBar (Some "Not Authenticated");;
           fire (mkChange [] [s])
         else mret tt
     | None => mret tt
     end)
    (fun error => pthrow error).

(** [a || b] on two optional strings. *)
Definition orElse (a b : option string) : option string :=
  match a with
  | Some s => if truthy s then Some s else b
  | None => b
  end.

(** [getClientId]; [config] is the section [gemini] of the workspace
    configuration, [environment] is [process.env]. *)
Definition getClientId (config environment : gmap string string) : JsError + string :=
  let clientId := orElse (config !! "oauth.clientId") (environment !! "GOOGLE_CLIENT_ID") in
  if present clientId then inr (default "" clientId)
  else inl (newError ("Google OAuth Client ID not configured. Please set "
                      +:+ "gemini.oauth.clientId in settings or GOOGLE_CLIENT_ID "
                      +:+ "environment variable.")).

(** [getClientSecret]. *)
Definition getClientSecret (config environment : gmap string string) : JsError + string :=
  let clientSecret :=
    orElse (config !! "oauth.clientSecret") (environment !! "GOOGLE_CLIENT_SECRET") in
  if present clientSecret then inr (default "" clientSecret)
  else inl (newError ("Google OAuth Client Secret not configured. Please set "
                      +:+ "gemini.oauth.clientSecret in settings or GOOGLE_CLIENT_SECRET "
                      +:+ "environment variable.")).

End GeminiAuth.

(* ===================================================================== *)
(** ** The earlier version of gemini-cli.ts (proof of concept) *)
(* ===================================================================== *)

Module GeminiCliPoc.

Import GeminiCli.

(** The hard-coded prompt of the proof of concept. *)
Definition testPrompt : string :=
  "Hello, this is a test from the Cline extension. Please respond with a simple greeting.".

(** The listeners once the promise is settled: they stay registered, so
    a later close or error clears the timer again; the cleared timer does
    not fire. *)
Fixpoint afterExit (events : list ProcEvent) : M unit :=
  match events with
  | [] => mret tt
  | Close _ :: rest | ProcError _ :: rest => emit ClearTimeout;; afterExit rest
  | _ :: rest => afterExit rest
  end.

(** The listeners and the wait for the exit: stdout and stderr are
    accumulated, the timer sends SIGTERM, close resolves and error
    rejects. *)
Fixpoint awaitExit (events : list ProcEvent) (output errorOutput : string)
  : M (string * string * option Z) :=
  match events with
  | [] => ([], Pending, [])
  | StdoutData d :: rest => awaitExit rest (output +:+ d) errorOutput
  | StderrData d :: rest => awaitExit rest output (errorOutput +:+ d)
  | TimerFired :: rest => emit (Kill "SIGTERM");; awaitExit rest output errorOutput
  | Close code :: rest =>
      emit ClearTimeout;; later (afterExit rest);; mret (output, errorOutput, code)
  | ProcError error :: rest =>
      emit ClearTimeout;; later (afterExit rest);; throw error
  end.

(** The [catch] block of [createMessage]. *)
Definition mapError (cliPath : string) (timeout : Z) (error : JsError) : JsError :=
  if bool_decide (err_code error = Some "ENOENT") then
    newError ("Gemini CLI not found at path: " +:+ cliPath
              +:+ ". Please ensure Gemini CLI is installed and in your PATH.")
  else if includes (err_message error) "timeout" then
    newError ("Gemini CLI timed out after " +:+ pretty timeout
              +:+ "ms. The request may be too complex or the CLI may be unresponsive.")
  else newError ("Gemini CLI error: " +:+ err_message error).

(** [createMessage] of the proof of concept, run until the consumer has
    drained it. *)
Definition createMessage (options : GeminiCliHandlerOptions)
    (systemPrompt : string) (messages : list MessageParam) (h : Host) : M unit :=
  let cliPath := strOr (geminiCliPath options) "gemini" in
  let timeout := numOr (timeout options) 30000 in
  try_catch
    (cliProcess ← spawn h cliPath ["--prompt"; testPrompt] (processEnv h);
     emit (SetTimeout timeout);;
     '(output, errorOutput, exitCode) ← awaitExit cliProcess "" "";
     if negb (bool_decide (exitCode = Some 0%Z)) then
       throw (newError ("Gemini CLI exited with code " +:+ showCode exitCode
                        +:+ ". Error: " +:+ errorOutput))
     else if negb (truthy (trim output)) then
       throw (newError "Gemini CLI produced no output")
     else
       emit (Yield (TextChunk output));;
       emit (Yield (UsageChunk 0 0 0 0)))
    (fun error => throw (mapError cliPath timeout error)).

End GeminiCliPoc.

(* ===================================================================== *)
(** ** mock-gemini-cli.js *)
(* ===================================================================== *)

Module MockCli.

(** The loop over [process.argv.slice(2)]: the argument that follows the
    first [--prompt] that has an argument after it; the empty string when
    there is none. *)
Fixpoint parsePrompt (args : list string) : string :=
  match args with
  | [] => ""
  | a :: rest =>
      if String.eqb a "--prompt" then
        match rest with
        | p :: _ => p
        | [] => parsePrompt rest
        end
      else parsePrompt rest
  end.

End MockCli.

(* ===================================================================== *)
(** ** Concrete inputs used in the examples *)
(* ===================================================================== *)

(** A chunk with an opening brace that is never closed. *)
Definition unterminated_chunk : string :=
  "{" +:+ dq +:+ "summary" +:+ dq +:+ ": " +:+ dq +:+ "do".

(** An array of two objects that is cut off inside the second one, and a
    tool call whose object is cut off. *)
Definition cut_off_array : string :=
  "[{" +:+ dq +:+ "id" +:+ dq +:+ ": 1}, {" +:+ dq +:+ "id" +:+ dq +:+ ": 2".

Definition cut_off_tool_call : string :=
  "Tool: {" +:+ dq +:+ "cmd" +:+ dq +:+ ": ".

(** The chunk of the specification's example of a dangerous tool call. *)
Definition rm_chunk : string := "Tool: rm -rf ./drafts" +:+ nl.

(** A chunk of prose with a JSON object inside. *)
Definition prose_json_chunk : string := "ok " +:+ summary_done.

(** Default options, a signed-in host whose process follows a given
    schedule, and some schedules. *)
Definition plainOptions : GeminiCli.GeminiCliHandlerOptions :=
  GeminiCli.mkOptions None None None None None None.

Definition signedIn : AuthenticationSession :=
  mkSession "gemini-oauth-1700000000000" (Some "ya29.secret-token") "oauth-user"
            "Google OAuth" [].

Definition hostWith (random : string) (events : list GeminiCli.ProcEvent)
  : GeminiCli.Host :=
  GeminiCli.mkHost random ∅ (inr (Some signedIn)) None
                   (inl (newError "not asked")) (inr events).

Definition one_message : list GeminiCli.MessageParam :=
  [GeminiCli.mkMessage GeminiCli.user (GeminiCli.Plain "tidy up")].

(** Three chunks, then a clean exit. *)
Definition three_chunks : list GeminiCli.ProcEvent :=
  [ GeminiCli.StdoutData ("Thinking: plan" +:+ nl);
    GeminiCli.StdoutData ("Tool: ls" +:+ nl);
    GeminiCli.StdoutData ("All done" +:+ nl);
    GeminiCli.Close (Some 0%Z) ].

(** One dangerous tool call, then a clean exit. *)
Definition dangerous_run : list GeminiCli.ProcEvent :=
  [ GeminiCli.StdoutData rm_chunk; GeminiCli.Close (Some 0%Z) ].

(** The process writes nothing, the timer fires, the process is closed by
    the signal (exit code null). *)
Definition timed_out_run : list GeminiCli.ProcEvent :=
  [ GeminiCli.TimerFired; GeminiCli.Close None ].

(** The process fails with exit code 2 after a line on stderr. *)
Definition failing_run : list GeminiCli.ProcEvent :=
  [ GeminiCli.StderrData "boom"; GeminiCli.Close (Some 2%Z) ].

(** The executable is missing: the process reports the error, and then
    closes with the negative exit code of the failed spawn. *)
Definition enoent : JsError := mkError (Some "ENOENT") "spawn gemini ENOENT".

Definition error_then_close : list GeminiCli.ProcEvent :=
  [ GeminiCli.ProcError enoent; GeminiCli.Close (Some (-2)%Z) ].

(** A signed-in host on which the call of [spawn] throws. *)
Definition spawn_type_error : JsError :=
  mkError (Some "ERR_INVALID_ARG_VALUE")
          "The argument 'args[2]' must be a string without null bytes.".

Definition rejecting_spawn_host : GeminiCli.Host :=
  GeminiCli.mkHost "00112233aabbccdd" ∅ (inr (Some signedIn)) None
                   (inl (newError "not asked")) (inl spawn_type_error).

(** The surroundings of a call that is retried: the first invocation draws
    one id and its process times out, the second draws another id and its
    process answers. *)
Definition retry_world (attempt : nat) : GeminiCli.Host :=
  match attempt with
  | O => hostWith "00112233aabbccdd" timed_out_run
  | S _ => hostWith "8899aabbccddeeff" three_chunks
  end.

(** The policy that retries every error. *)
Definition retry_always (e : JsError) : bool := true.


(** A consent flow that grants a token valid for one hour, and the
    provider after the session it yields has been stored. *)
Definition granted_tokens : GeminiAuth.Tokens :=
  GeminiAuth.mkTokens (Some "ya29.secret-token") None (Some 1700003600000%Z).

Definition consent_world : GeminiAuth.World :=
  GeminiAuth.mkWorld 1700000000000%Z ∅ "5ca1ab1e"
    (GeminiAuth.CallbackArrives
       (GeminiAuth.mkCallback None (Some "4/0AfJohXn") (Some "5ca1ab1e"))
       (inr granted_tokens))
    None.

Definition provider_after_consent : GeminiAuth.Provider :=
  fst (GeminiAuth.createSession consent_world GeminiAuth.SCOPES GeminiAuth.noProvider).

(** A world in which nothing is on offer: no API key, no callback. *)
Definition barren_world : GeminiAuth.World :=
  GeminiAuth.mkWorld 1700000000000%Z ∅ "5ca1ab1e" GeminiAuth.NoCallback None.

(** A world that offers an API key in the environment. *)
Definition api_key_world : GeminiAuth.World :=
  GeminiAuth.mkWorld 1700000000000%Z {[ "GEMINI_API_KEY" := "AIza-key" ]} "5ca1ab1e"
    GeminiAuth.NoCallback None.

(** A world in which the default credentials of the platform are the only
    credential on offer: no API key, and the user does not answer the
    consent screen. *)
Definition adc_session : AuthenticationSession :=
  mkSession "gemini-adc" (Some "ya29.adc-token") "adc-user"
            "Application Default Credentials" GeminiAuth.SCOPES.

Definition adc_world : GeminiAuth.World :=
  GeminiAuth.mkWorld 1700000000000%Z ∅ "5ca1ab1e" GeminiAuth.NoCallback
    (Some adc_session).

(** A secret storage that rejects every write. *)
Definition quota_error : JsError := newError "storage quota exceeded".

Definition read_only_provider : GeminiAuth.Provider :=
  GeminiAuth.mkProvider ∅ "" [] [] (Some quota_error) None.

(** The provider after the consent, with a storage that rejects every
    deletion. *)
Definition locked_provider : GeminiAuth.Provider :=
  GeminiAuth.mkProvider (GeminiAuth.secretStorage provider_after_consent)
    (GeminiAuth.statusBarText provider_after_consent)
    (GeminiAuth.sessionChanges provider_after_consent)
    (GeminiAuth.invoked provider_after_consent) None (Some quota_error).

(* ===================================================================== *)
(** * Properties *)
(* ===================================================================== *)

Import GeminiCli.
Import GeminiAuth.

(* --------------------------------------------------------------------- *)
(** *** Facts about the string primitives *)

Lemma startsWith_spec s p :
  startsWith s p = true <-> exists post, s = p +:+ post.
Proof.
  revert s; induction p as [|a p IH]; intros s; simpl.
  - split; [intros _; exists s; reflexivity | destruct s; reflexivity].
  - destruct s as [|b s]; simpl.
    + split; [discriminate | intros [post H]; discriminate].
    + destruct (Ascii.eqb_spec a b) as [->|Hne].
      * rewrite IH. split; intros [post H]; exists post.
        -- now rewrite H.
        -- now inversion H.
      * split; [discriminate | intros [post H]; inversion H; congruence].
Qed.

Lemma includes_spec s p :
  includes s p = true <-> exists pre post, s = pre +:+ p +:+ post.
Proof.
  induction s as [|a s IH]; cbn [includes].
  - rewrite orb_false_r, startsWith_spec. split.
    + intros [post H]. exists "", post. exact H.
    + intros [pre [post H]]. destruct pre; simpl in H; [eauto | discriminate].
  - rewrite orb_true_iff, startsWith_spec, IH. split.
    + intros [[post H] | [pre [post H]]].
      * exists "", post. exact H.
      * exists (String a pre), post. simpl. now rewrite H.
    + intros [pre [post H]]. destruct pre as [|b pre]; simpl in H.
      * left. eauto.
      * right. inversion H; subst. eauto.
Qed.

Lemma toLowerCase_app s t :
  toLowerCase (s +:+ t) = toLowerCase s +:+ toLowerCase t.
Proof. induction s as [|a s IH]; simpl; [reflexivity | now rewrite IH]. Qed.

Lemma toLowerCase_split s : forall a b,
  toLowerCase s = a +:+ b ->
  exists s1 s2, s = s1 +:+ s2 /\ toLowerCase s1 = a /\ toLowerCase s2 = b.
Proof.
  intros a; revert s; induction a as [|c a IH]; intros s b H; simpl in H.
  - exists "", s. auto.
  - destruct s as [|d s]; simpl in H; [discriminate|].
    inversion H as [[Hc Hr]]. destruct (IH _ _ Hr) as (s1 & s2 & -> & H1 & H2).
    exists (String d s1), s2. simpl. now rewrite H1.
Qed.

Lemma eq_ci_lower s t : eq_ci s t <-> toLowerCase s = toLowerCase t.
Proof.
  split.
  - induction 1; simpl; congruence.
  - revert t; induction s as [|a s IH]; intros [|b t] H; simpl in H;
      try discriminate; [constructor|].
    inversion H. constructor; auto.
Qed.

(** [includes] after lower-casing both sides is containment up to case. *)
Lemma includes_lower_spec s w :
  includes (toLowerCase s) (toLowerCase w) = true <-> contains_ci s w.
Proof.
  rewrite includes_spec. unfold contains_ci. split.
  - intros (a & c & H).
    destruct (toLowerCase_split _ _ _ H) as (pre & rest & -> & Hpre & Hrest).
    destruct (toLowerCase_split _ _ _ Hrest) as (mid & post & -> & Hmid & Hpost).
    exists pre, mid, post. split; [reflexivity | now apply eq_ci_lower].
  - intros (pre & mid & post & -> & Hci). apply eq_ci_lower in Hci.
    exists (toLowerCase pre), (toLowerCase post).
    now rewrite !toLowerCase_app, Hci.
Qed.

Lemma trimEnd_all_space s : trimEnd s = "" <-> all_space s.
Proof.
  induction s as [|a s IH]; simpl.
  - split; [constructor | reflexivity].
  - destruct (trimEnd s) eqn:E.
    + destruct (isJsSpace a) eqn:Ha.
      * split; [intros _; constructor; [exact Ha | now apply IH] | reflexivity].
      * split; [discriminate | inversion 1; congruence].
    + split; [discriminate|]. inversion 1 as [|? ? _ Hs]; subst.
      apply IH in Hs. discriminate.
Qed.

Lemma trimStart_all_space s : all_space (trimStart s) <-> all_space s.
Proof.
  induction s as [|a s IH]; simpl; [reflexivity|].
  destruct (isJsSpace a) eqn:Ha; [|reflexivity].
  rewrite IH. split; [now constructor | now inversion 1].
Qed.

(** [!s.trim()] holds exactly for the strings made of white space only. *)
Lemma trim_empty_iff s : trim s = "" <-> all_space s.
Proof. unfold trim. now rewrite trimEnd_all_space, trimStart_all_space. Qed.

Example json_parse_summary :
  Json.parse summary_done
  = inr (Json.JObject [(Json.units_of "summary", Json.JString (Json.units_of "done"))]).
Proof. vm_compute. reflexivity. Qed.

(** [JSON.parse] on a few texts: white space around a value, nesting,
    escapes and exponents are accepted; a trailing comma, a leading zero, an
    unquoted key, an unclosed string and trailing text are rejected. *)
Example json_parse_accepts :
  Forall (fun s => exists v, Json.parse s = inr v)
    [ " { } "; "[1, 2 , 3]"; "-0"; "1.5e+10"; "[[[[1]]]]";
      "[" +:+ dq +:+ "a\u00e9\n" +:+ dq +:+ ", true, null]";
      "{" +:+ dq +:+ "a" +:+ dq +:+ ": {" +:+ dq +:+ "b" +:+ dq +:+ ": [false]}}" ].
Proof. repeat constructor; eexists; vm_compute; reflexivity. Qed.

Example json_parse_rejects :
  Forall (fun s => exists e, Json.parse s = inl e)
    [ ""; "[1,]"; "01"; "1."; "{a: 1}"; "tru"; "1 2"; dq +:+ "open";
      "{" +:+ dq +:+ "a" +:+ dq +:+ ": 1,}"; "{" +:+ dq +:+ "a" +:+ dq +:+ ": 1" ].
Proof. repeat constructor; eexists; vm_compute; reflexivity. Qed.

Lemma yields_app t1 t2 : yields (t1 ++ t2) = yields t1 ++ yields t2.
Proof.
  induction t1 as [|e t1 IH]; [reflexivity|].
  destruct e; simpl; rewrite ?IH; reflexivity.
Qed.

Lemma confirmations_app t1 t2 :
  confirmations (t1 ++ t2) = confirmations t1 ++ confirmations t2.
Proof.
  induction t1 as [|e t1 IH]; [reflexivity|].
  destruct e; simpl; rewrite ?IH; reflexivity.
Qed.

Lemma correlationIds_app t1 t2 :
  correlationIds (t1 ++ t2) = correlationIds t1 ++ correlationIds t2.
Proof.
  induction t1 as [|e t1 IH]; [reflexivity|].
  destruct e; simpl; rewrite ?IH; reflexivity.
Qed.

Lemma append_cons (x : ascii) (a b : string) :
  String x a +:+ b = String x (a +:+ b).
Proof. reflexivity. Qed.

Lemma append_assoc (a b c : string) : (a +:+ b) +:+ c = a +:+ b +:+ c.
Proof.
  induction a as [|x a IH]; [reflexivity|]. now rewrite !append_cons, IH.
Qed.

Lemma append_nil_r (a : string) : a +:+ "" = a.
Proof.
  induction a as [|x a IH]; [reflexivity|]. now rewrite append_cons, IH.
Qed.

Lemma append_nil_l (a : string) : "" +:+ a = a.
Proof. reflexivity. Qed.

(** Normal form of appends whose left operand starts with known
    characters. *)
Ltac sapp := rewrite ?append_cons, ?append_nil_l in *.

(* --------------------------------------------------------------------- *)
(** *** The brace pattern *)

Lemma hasChar_app c a b : hasChar c (a +:+ b) = hasChar c a || hasChar c b.
Proof.
  induction a as [|x a IH]; [reflexivity|].
  rewrite append_cons. simpl. now rewrite IH, orb_assoc.
Qed.

Lemma hasChar_mid c a b : hasChar c (a +:+ String c b) = true.
Proof.
  rewrite hasChar_app. simpl. rewrite Ascii.eqb_refl. apply orb_true_r.
Qed.

Lemma fromFirstOpen_spec s t :
  fromFirstOpen s = Some t <->
  exists pre r, s = pre +:+ "{" +:+ r /\ t = "{" +:+ r /\ hasChar "{" pre = false.
Proof.
  revert t; induction s as [|a s IH]; intros t; simpl.
  - split; [discriminate|]. intros ([|] & r & H & _); discriminate.
  - destruct (Ascii.eqb_spec a "{") as [->|Hne].
    + split.
      * intros [= <-]. exists "", s. auto.
      * intros (pre & r & H & -> & Hpre). destruct pre as [|b pre]; sapp.
        -- now rewrite H.
        -- injection H as <- _. simpl in Hpre. discriminate.
    + rewrite IH. split.
      * intros (pre & r & -> & -> & Hpre). exists (String a pre), r.
        repeat split; auto. simpl. rewrite Hpre.
        destruct (Ascii.eqb_spec a "{"); [contradiction | reflexivity].
      * intros (pre & r & H & -> & Hpre). destruct pre as [|b pre]; sapp.
        -- injection H as -> _. contradiction.
        -- injection H as <- ->.
           simpl in Hpre. apply orb_false_iff in Hpre as [_ Hpre]. eauto.
Qed.

Lemma throughLastClose_none s :
  throughLastClose s = None <-> hasChar "}" s = false.
Proof.
  induction s as [|a s IH]; simpl; [tauto|].
  destruct (throughLastClose s).
  - split; [discriminate|]. intros [_ H]%orb_false_iff.
    apply IH in H. discriminate.
  - destruct (Ascii.eqb a "}"); simpl; [split; discriminate|]. tauto.
Qed.

Lemma throughLastClose_app q post :
  hasChar "}" post = false ->
  throughLastClose (q +:+ "}" +:+ post) = Some (q +:+ "}").
Proof.
  intros Hpost. induction q as [|a q IH]; sapp; simpl.
  - apply throughLastClose_none in Hpost. now rewrite Hpost.
  - now rewrite IH.
Qed.

Lemma throughLastClose_spec s p :
  throughLastClose s = Some p <->
  exists q post, s = q +:+ "}" +:+ post /\ p = q +:+ "}" /\ hasChar "}" post = false.
Proof.
  split.
  - revert p; induction s as [|a s IH]; intros p; simpl; [discriminate|].
    destruct (throughLastClose s) as [p'|] eqn:E.
    + destruct (IH p' eq_refl) as (q & post & -> & -> & Hpost).
      intros [= <-]. exists (String a q), post. auto.
    + apply throughLastClose_none in E.
      destruct (Ascii.eqb_spec a "}") as [->|Hne]; [|discriminate].
      intros [= <-]. exists "", s. auto.
  - intros (q & post & -> & -> & Hpost). now apply throughLastClose_app.
Qed.

(** The regular expression selects the brace span, and only it. *)
Lemma matchBraces_spec text m : matchBraces text = Some m <-> brace_span text m.
Proof.
  unfold matchBraces, brace_span. split.
  - destruct (fromFirstOpen text) as [t|] eqn:E; [|discriminate].
    apply fromFirstOpen_spec in E as (pre & r & -> & -> & Hpre). sapp.
    destruct (throughLastClose r) as [p|] eqn:E2; [|discriminate].
    apply throughLastClose_spec in E2 as (q & post & -> & -> & Hpost).
    intros [= <-]. exists pre, q, post. sapp. auto.
  - intros (pre & body & post & -> & -> & Hpre & Hpost).
    assert (E : fromFirstOpen (pre +:+ "{" +:+ body +:+ "}" +:+ post)
                = Some ("{" +:+ body +:+ "}" +:+ post)).
    { apply fromFirstOpen_spec. eauto. }
    rewrite E. pose proof (throughLastClose_app body post Hpost) as E2.
    sapp. now rewrite E2.
Qed.

(* --------------------------------------------------------------------- *)
(** *** Classification of a chunk *)

Ltac munfold :=
  unfold mbind, M_bind, bind, mret, M_ret, ret, throw, emit, try_catch,
    logInfo, logWarning, logError, await, JSON_parse in *;
  simpl.

(** [parseCliOutput] as a decision list: the log line it writes and the
    object it returns. *)
Lemma parseCliOutput_eq text cid :
  parseCliOutput text cid =
    if hasReasoningMarker text then
      ([Log INFO cid "Detected reasoning phase in CLI output"],
       Return (Reasoning text), [])
    else if hasActionMarker text then
      ([Log INFO cid "Detected tool call in CLI output"],
       Return (ToolCall text (requiresUserConfirmation text)), [])
    else if hasConfirmationMarker text then
      ([Log INFO cid "Detected confirmation request in CLI output"],
       Return (ConfirmationRequest text), [])
    else
      match matchBraces text with
      | Some m =>
          match Json.parse m with
          | inr v => ([Log INFO cid "Detected structured JSON output"],
                      Return (Structured text v), [])
          | inl _ => ([], Return (Text text), [])
          end
      | None => ([], Return (Text text), [])
      end.
Proof.
  unfold parseCliOutput.
  destruct (hasReasoningMarker text); [reflexivity|].
  destruct (hasActionMarker text); [reflexivity|].
  destruct (hasConfirmationMarker text); [reflexivity|].
  destruct (matchBraces text) as [m|]; [|reflexivity].
  munfold. destruct (Json.parse m); reflexivity.
Qed.

(** The classifier returns on every chunk and only writes log lines. *)
Lemma parseCliOutput_returns text cid :
  exists msgs ev,
    parseCliOutput text cid = (map (Log INFO cid) msgs, Return ev, []).
Proof.
  rewrite parseCliOutput_eq.
  destruct (hasReasoningMarker text); [eexists [_], _; reflexivity|].
  destruct (hasActionMarker text); [eexists [_], _; reflexivity|].
  destruct (hasConfirmationMarker text); [eexists [_], _; reflexivity|].
  destruct (matchBraces text) as [m|]; [|eexists [], _; reflexivity].
  destruct (Json.parse m); [eexists [], _ | eexists [_], _]; reflexivity.
Qed.

(** The deny-list test is containment of some entry up to case. *)
Lemma requiresUserConfirmation_spec text :
  requiresUserConfirmation text = true <->
  exists w, In w dangerousActions /\ contains_ci text w.
Proof.
  unfold requiresUserConfirmation. rewrite existsb_exists.
  split; intros (w & Hin & H); exists w; split; auto;
    now apply includes_lower_spec.
Qed.

(** C8, as stated, fails: a chunk of JSON that is never closed (an array
    whose second object is cut off, which [JSON.parse] rejects) and that
    holds no marker is classified as structured, with the value of the one
    object inside it that is closed, not as text; and an unclosed object
    after an action marker is classified as a tool call. *)
Lemma C8_counterexample :
  (exists e, Json.parse cut_off_array = inl e) /\
  hasReasoningMarker cut_off_array = false /\
  hasActionMarker cut_off_array = false /\
  hasConfirmationMarker cut_off_array = false /\
  (exists v, result (parseCliOutput cut_off_array "c0")
             = Return (Structured cut_off_array v)) /\
  result (parseCliOutput cut_off_array "c0") <> Return (Text cut_off_array) /\
  hasChar "}" cut_off_tool_call = false /\
  result (parseCliOutput cut_off_tool_call "c0")
  = Return (ToolCall cut_off_tool_call false).
Proof.
  split; [eexists; vm_compute; reflexivity|].
  repeat (split; [reflexivity|]).
  split; [eexists; vm_compute; reflexivity|].
  split; [vm_compute; discriminate|].
  split; reflexivity.
Qed.

(** C8 (amended).  Classifying a chunk never raises, whatever the chunk
    holds: the classifier always returns an event, and the event depends on
    the chunk alone.  The event is a text event exactly when the chunk holds
    none of the markers and no span from a first opening brace through a
    last closing brace that parses.  In particular a chunk without marker
    and without closing brace is a text event, and no log line is
    written for it. *)
Theorem C8_classification_never_raises (text cid : string) :
  (exists ev, result (parseCliOutput text cid) = Return ev) /\
  (result (parseCliOutput text cid) = Return (Text text) <->
   hasReasoningMarker text = false /\ hasActionMarker text = false /\
   hasConfirmationMarker text = false /\
   forall m, brace_span text m -> exists e, Json.parse m = inl e) /\
  (hasReasoningMarker text = false -> hasActionMarker text = false ->
   hasConfirmationMarker text = false -> hasChar "}" text = false ->
   result (parseCliOutput text cid) = Return (Text text) /\
   trace (parseCliOutput text cid) = []).
Proof.
  split; [|split].
  - destruct (parseCliOutput_returns text cid) as (msgs & ev & ->). eauto.
  - rewrite parseCliOutput_eq.
    destruct (hasReasoningMarker text); [split; [discriminate | intros [[=] _]]|].
    destruct (hasActionMarker text);
      [split; [discriminate | intros (_ & [=] & _)]|].
    destruct (hasConfirmationMarker text);
      [split; [discriminate | intros (_ & _ & [=] & _)]|].
    destruct (matchBraces text) as [m|] eqn:E.
    + apply matchBraces_spec in E. destruct (Json.parse m) as [e|v] eqn:Ev.
      * split; [|reflexivity]. intros _. repeat split.
        intros m' Hm'. apply matchBraces_spec in E, Hm'.
        assert (m' = m) by congruence. subst. eauto.
      * split; [discriminate|]. intros (_ & _ & _ & H).
        destruct (H m E) as [e He]. congruence.
    + split; [|reflexivity]. intros _. repeat split.
      intros m Hm. apply matchBraces_spec in Hm. congruence.
  - intros H1 H2 H3 H. rewrite parseCliOutput_eq, H1, H2, H3.
    destruct (matchBraces text) as [m|] eqn:E; [|split; reflexivity].
    apply matchBraces_spec in E. destruct E as (pre & body & post & -> & _).
    rewrite !hasChar_app in H. simpl in H.
    rewrite !orb_true_r in H. discriminate.
Qed.

Lemma C8_witness :
  result (parseCliOutput unterminated_chunk "c0") = Return (Text unterminated_chunk) /\
  trace (parseCliOutput unterminated_chunk "c0") = [].
Proof.
  apply (proj2 (proj2 (C8_classification_never_raises unterminated_chunk "c0")));
    reflexivity.
Defined.

(** C2, as stated, fails: a chunk with an action marker that also holds a
    reasoning marker is classified as reasoning, not as a tool call. *)
Lemma C2_counterexample :
  hasActionMarker "Thinking: Tool: ls" = true /\
  result (parseCliOutput "Thinking: Tool: ls" "c0") = Return (Reasoning "Thinking: Tool: ls") /\
  forall d, result (parseCliOutput "Thinking: Tool: ls" "c0")
            <> Return (ToolCall "Thinking: Tool: ls" d).
Proof. repeat split. intros d. vm_compute. discriminate. Qed.

(** C2 (amended).  A chunk that holds an action marker and no reasoning
    marker is classified as a tool call, and the tool call requires
    confirmation exactly when the chunk contains an entry of the deny list
    up to case.  The chunk [Tool: rm -rf ./drafts] followed by a line feed
    is a tool call that requires confirmation. *)
Theorem C2_tool_call_dangerous_iff_deny_list :
  (forall text cid,
     hasReasoningMarker text = false -> hasActionMarker text = true ->
     exists d,
       result (parseCliOutput text cid) = Return (ToolCall text d) /\
       (d = true <-> exists w, In w dangerousActions /\ contains_ci text w)) /\
  (forall cid, result (parseCliOutput rm_chunk cid) = Return (ToolCall rm_chunk true)).
Proof.
  split.
  - intros text cid H1 H2. exists (requiresUserConfirmation text). split.
    + now rewrite parseCliOutput_eq, H1, H2.
    + apply requiresUserConfirmation_spec.
  - intros cid. rewrite parseCliOutput_eq. reflexivity.
Qed.

Lemma C2_witness :
  exists d,
    result (parseCliOutput "Action: sudo reboot" "c0")
    = Return (ToolCall "Action: sudo reboot" d) /\
    (d = true <-> exists w, In w dangerousActions /\ contains_ci "Action: sudo reboot" w).
Proof.
  apply (proj1 C2_tool_call_dangerous_iff_deny_list "Action: sudo reboot" "c0");
    reflexivity.
Defined.

(** C5, as stated, fails: a chunk of prose with a JSON object inside matches
    none of the marker rules and does not parse as one JSON object, yet it is
    classified as structured, not as text. *)
Lemma C5_counterexample :
  hasReasoningMarker prose_json_chunk = false /\
  hasActionMarker prose_json_chunk = false /\
  hasConfirmationMarker prose_json_chunk = false /\
  (exists e, Json.parse prose_json_chunk = inl e) /\
  result (parseCliOutput prose_json_chunk "c0")
  = Return (Structured prose_json_chunk
              (Json.JObject [(Json.units_of "summary", Json.JString (Json.units_of "done"))])).
Proof. repeat split. eexists. vm_compute. reflexivity. Qed.

(** C5 (amended).  The rules are applied in a fixed order: a chunk with a
    reasoning marker is reasoning; otherwise a chunk with an action marker
    is a tool call; otherwise a chunk with a confirmation marker is a
    confirmation request; otherwise a chunk whose span from its first
    opening brace through its last closing brace parses as JSON is
    structured and carries the value parsed from that span; every other
    chunk is text.  The chunk of the example, an object with the member
    summary, is structured and carries that object. *)
Theorem C5_priority_order (text cid : string) :
  (hasReasoningMarker text = true ->
   result (parseCliOutput text cid) = Return (Reasoning text)) /\
  (hasReasoningMarker text = false -> hasActionMarker text = true ->
   exists d, result (parseCliOutput text cid) = Return (ToolCall text d)) /\
  (hasReasoningMarker text = false -> hasActionMarker text = false ->
   hasConfirmationMarker text = true ->
   result (parseCliOutput text cid) = Return (ConfirmationRequest text)) /\
  (hasReasoningMarker text = false -> hasActionMarker text = false ->
   hasConfirmationMarker text = false ->
   forall m v, brace_span text m -> Json.parse m = inr v ->
   result (parseCliOutput text cid) = Return (Structured text v)) /\
  (hasReasoningMarker text = false -> hasActionMarker text = false ->
   hasConfirmationMarker text = false ->
   (forall m, brace_span text m -> exists e, Json.parse m = inl e) ->
   result (parseCliOutput text cid) = Return (Text text)) /\
  result (parseCliOutput summary_done cid)
  = Return (Structured summary_done
              (Json.JObject [(Json.units_of "summary", Json.JString (Json.units_of "done"))])).
Proof.
  rewrite !parseCliOutput_eq. repeat split.
  - now intros ->.
  - intros -> ->. eauto.
  - now intros -> -> ->.
  - intros -> -> -> m v Hm Hv. apply matchBraces_spec in Hm. now rewrite Hm, Hv.
  - intros -> -> -> H. destruct (matchBraces text) as [m|] eqn:E; [|reflexivity].
    apply matchBraces_spec in E. now destruct (H m E) as [e ->].
Qed.

Lemma C5_witness :
  result (parseCliOutput prose_json_chunk "c0")
  = Return (Structured prose_json_chunk
              (Json.JObject [(Json.units_of "summary", Json.JString (Json.units_of "done"))])).
Proof.
  apply (proj1 (proj2 (proj2 (proj2 (C5_priority_order prose_json_chunk "c0")))))
    with (m := summary_done); try reflexivity.
  apply matchBraces_spec. reflexivity.
Defined.

(* --------------------------------------------------------------------- *)
(** *** The listeners and the wait for the exit of the process *)

Lemma Forall_supervision_logs cid msgs :
  Forall (supervision cid) (map (Log INFO cid) msgs).
Proof. induction msgs; simpl; constructor; auto. constructor. Qed.

Lemma supervision_quiet cid t :
  Forall (supervision cid) t ->
  yields t = [] /\ confirmations t = [] /\
  Forall (fun c => c = Some cid) (correlationIds t).
Proof.
  induction 1 as [|e t He _ (IH1 & IH2 & IH3)]; [repeat split; constructor|].
  destruct He; simpl; repeat split; auto.
Qed.

(** The stdout listener never throws: it appends the chunk to [output],
    pushes one text chunk on [streamChunks], writes log lines and nothing
    else. *)
Lemma onStdoutData_eq cid d st :
  isComplete st = false ->
  exists t,
    onStdoutData cid d st
    = (t, Return (mkCliState (output st +:+ d) (errorOutput st) false
                             (streamChunks st ++ [TextChunk d])), []) /\
    Forall (supervision cid) t /\ ~ In (Kill "SIGTERM") t.
Proof.
  intros Hc. unfold onStdoutData. simpl. rewrite Hc. simpl.
  destruct (parseCliOutput_returns d cid) as (msgs & ev & E). rewrite E.
  assert (Hk : forall l, ~ In (Kill "SIGTERM") (map (Log INFO cid) msgs ++ l) <->
                         ~ In (Kill "SIGTERM") l).
  { intros l. rewrite in_app_iff, in_map_iff. split; [tauto|].
    intros H [(x & Hx & _)|]; [discriminate | tauto]. }
  pose proof (Forall_supervision_logs cid msgs) as Hl.
  destruct ev as [c|c [|]|c|c v|c]; munfold; eexists; (split; [reflexivity|]);
    (split; [apply Forall_app; split; [exact Hl | repeat constructor]
            | apply Hk; simpl; intuition discriminate]).
Qed.

(** Once the process is complete the stdout listener only appends. *)
Lemma onStdoutData_complete cid d st :
  isComplete st = true ->
  onStdoutData cid d st
  = ([], Return (mkCliState (output st +:+ d) (errorOutput st) true (streamChunks st)),
     []).
Proof. intros Hc. unfold onStdoutData. simpl. rewrite Hc. reflexivity. Qed.

Lemma onStderrData_eq cid d st :
  onStderrData cid d st
  = ([Log WARN cid ("CLI stderr: " +:+ d)],
     Return (mkCliState (output st) (errorOutput st +:+ d) (isComplete st)
                        (streamChunks st)), []).
Proof. reflexivity. Qed.

(** What the listeners do once the wait is settled: they write log lines
    and clear the timer, once for each close and each error event, and
    nothing else. *)
Lemma afterExit_spec cid events :
  forall st, isComplete st = true ->
  exists t,
    afterExit cid events st = (t, Return tt, []) /\
    Forall (supervision cid) t /\ ~ In (Kill "SIGTERM") t /\
    kills t = 0 /\ clears t = exits events.
Proof.
  induction events as [|ev events IH]; intros st Hc.
  - exists []. repeat split; [constructor | intros []].
  - destruct ev as [d|d| |code|e]; simpl.
    + rewrite (onStdoutData_complete cid d st Hc).
      destruct (IH (mkCliState (output st +:+ d) (errorOutput st) true
                               (streamChunks st)) eq_refl)
        as (t & E & Ht & Hk & Hn & Hl).
      munfold. rewrite E. exists t. repeat split; auto.
    + destruct (IH (mkCliState (output st) (errorOutput st +:+ d) (isComplete st)
                               (streamChunks st)) Hc)
        as (t & E & Ht & Hk & Hn & Hl).
      munfold. rewrite E. eexists. split; [reflexivity|].
      split; [constructor; [constructor | exact Ht]|].
      split; [simpl; intuition discriminate|]. split; assumption.
    + apply IH, Hc.
    + destruct (IH (mkCliState (output st) (errorOutput st) true (streamChunks st))
                   eq_refl) as (t & E & Ht & Hk & Hn & Hl).
      unfold onClose. munfold. rewrite E. eexists. split; [reflexivity|].
      split; [repeat constructor; exact Ht|].
      split; [simpl; intuition discriminate|]. split; simpl; congruence.
    + destruct (IH (mkCliState (output st) (errorOutput st) true (streamChunks st))
                   eq_refl) as (t & E & Ht & Hk & Hn & Hl).
      unfold onError. munfold. rewrite E. eexists. split; [reflexivity|].
      split; [repeat constructor; exact Ht|].
      split; [simpl; intuition discriminate|]. split; simpl; congruence.
Qed.

(** What the wait for the exit does on a schedule of events: only
    supervision effects, a SIGTERM exactly when the timer fires before the
    exit, and at the exit the accumulated stdout and stderr; the listeners
    it leaves behind perform supervision effects too, and no SIGTERM. *)
Lemma awaitExit_spec cid T events :
  forall st, isComplete st = false ->
  exists t l,
    Forall (supervision cid) t /\ Forall (supervision cid) l /\
    (In (Kill "SIGTERM") t <-> timerFires events = true) /\
    ~ In (Kill "SIGTERM") l /\
    awaitExit cid T events st
    = (t, match exitOf events with
          | None => Pending
          | Some (inl e) => Throw e
          | Some (inr code) =>
              Return (mkCliState (output st +:+ concat (stdoutChunks events))
                                 (errorOutput st +:+ concat (stderrChunks events))
                                 true
                                 (streamChunks st ++ map TextChunk (stdoutChunks events)),
                      code)
          end, l).
Proof.
  induction events as [|ev events IH]; intros st Hc.
  - exists [], []. simpl.
    split; [constructor|]. split; [constructor|].
    split; [split; [intros [] | discriminate]|]. split; [intros []|reflexivity].
  - destruct ev as [d|d| |code|e]; simpl.
    + destruct (onStdoutData_eq cid d st Hc) as (t1 & -> & Ht1 & Hk1).
      destruct (IH (mkCliState (output st +:+ d) (errorOutput st) false
                               (streamChunks st ++ [TextChunk d])) eq_refl)
        as (t2 & l & Ht2 & Hl & Hk2 & Hkl & E).
      munfold. rewrite E. simpl. exists (t1 ++ t2), l.
      split; [apply Forall_app; auto|]. split; [exact Hl|].
      split; [rewrite in_app_iff, <- Hk2; tauto|]. split; [exact Hkl|].
      destruct (exitOf events) as [[e|code]|]; try reflexivity.
      now rewrite append_assoc, <- app_assoc.
    + destruct (IH (mkCliState (output st) (errorOutput st +:+ d) (isComplete st)
                               (streamChunks st)) Hc)
        as (t2 & l & Ht2 & Hl & Hk2 & Hkl & E).
      munfold. rewrite E. simpl. exists (Log WARN cid ("CLI stderr: " +:+ d) :: t2), l.
      split; [constructor; [constructor | exact Ht2]|]. split; [exact Hl|].
      split; [simpl; rewrite <- Hk2; intuition discriminate|]. split; [exact Hkl|].
      destruct (exitOf events) as [[e|code]|]; try reflexivity.
      now rewrite append_assoc.
    + destruct (IH st Hc) as (t2 & l & Ht2 & Hl & Hk2 & Hkl & E).
      munfold. unfold onTimeout. munfold. rewrite E. simpl.
      exists (Log WARN cid ("CLI process timeout after " +:+ pretty T +:+ "ms")
                :: Kill "SIGTERM" :: t2), l.
      split; [repeat constructor; exact Ht2|]. split; [exact Hl|].
      split; [simpl; tauto|]. split; [exact Hkl|]. reflexivity.
    + destruct (afterExit_spec cid events
                  (mkCliState (output st) (errorOutput st) true (streamChunks st))
                  eq_refl) as (l & E & Hl & Hkl & _).
      unfold onClose, later. munfold. rewrite E. unfold trace, during, afterwards.
      simpl. rewrite !append_nil_r, !app_nil_r.
      exists [ClearTimeout;
              Log INFO cid ("CLI process completed with exit code: " +:+ showCode code)], l.
      split; [repeat constructor|]. split; [exact Hl|].
      split; [simpl; intuition discriminate|]. split; [exact Hkl|]. reflexivity.
    + destruct (afterExit_spec cid events
                  (mkCliState (output st) (errorOutput st) true (streamChunks st))
                  eq_refl) as (l & E & Hl & Hkl & _).
      unfold onError, later. munfold. rewrite E. unfold trace, during, afterwards.
      simpl. rewrite ?app_nil_r.
      exists [ClearTimeout; Log ERROR cid "CLI process error"], l.
      split; [repeat constructor|]. split; [exact Hl|].
      split; [simpl; intuition discriminate|]. split; [exact Hkl|]. reflexivity.
Qed.

(* --------------------------------------------------------------------- *)
(** *** One run of the process *)

Lemma trace_eq {A} (t : list effect) (o : outcome A) (l : list effect) :
  trace (t, o, l) = t ++ l.
Proof. reflexivity. Qed.

Lemma result_eq {A} (t : list effect) (o : outcome A) (l : list effect) :
  result (t, o, l) = o.
Proof. reflexivity. Qed.

(** [executeStatefulCli] is its prologue, the supervision of the process,
    an ending that depends only on the exit and on the accumulated output,
    and what the listeners do afterwards; when [spawn] throws, the error is
    logged and thrown again at once. *)
Lemma executeStatefulCli_spec options h prompt cid :
  match child h with
  | inl e =>
      executeStatefulCli options h prompt cid
      = (firstn 2 (execPrologue options h prompt cid)
           ++ [Log ERROR cid "CLI execution failed"], Throw e, [])
  | inr events =>
      exists t l,
        Forall (supervision cid) t /\ Forall (supervision cid) l /\
        (In (Kill "SIGTERM") t <-> timerFires events = true) /\
        ~ In (Kill "SIGTERM") l /\
        executeStatefulCli options h prompt cid
        = (execPrologue options h prompt cid ++ t
             ++ fst (execEnding prompt cid events),
           snd (execEnding prompt cid events), l)
  end.
Proof.
  unfold executeStatefulCli, spawn. destruct (child h) as [e|events].
  - reflexivity.
  - destruct (awaitExit_spec cid (numOr (timeout options) 60000) events
                (mkCliState "" "" false []) eq_refl)
      as (t & l & Ht & Hl & Hk & Hkl & E).
    exists t, l. split; [exact Ht|]. split; [exact Hl|]. split; [exact Hk|].
    split; [exact Hkl|].
    unfold execEnding, execPrologue. munfold. rewrite E.
    destruct (exitOf events) as [[e|code]|];
      simpl; rewrite ?append_nil_l; cbv zeta;
      [| destruct (bool_decide (code = Some 0%Z));
         [destruct (truthy (trim (concat (stdoutChunks events))))|] |];
      simpl; rewrite <- ?app_assoc, ?app_nil_r; reflexivity.
Qed.

Lemma spawnEnv_correlationId options h cid :
  spawnEnv options h cid !! "GEMINI_CLI_CORRELATION_ID" = Some cid.
Proof.
  unfold spawnEnv. rewrite lookup_insert_ne by discriminate.
  apply lookup_insert_eq.
Qed.

Lemma performs_attributed options h cid t :
  Forall (performs options h cid) t -> Forall (attributed cid) t.
Proof.
  intros H. eapply Forall_impl; [exact H|]. intros e []; simpl; auto.
  apply spawnEnv_correlationId.
Qed.

Lemma attributed_quiet cid t :
  Forall (attributed cid) t ->
  confirmations t = [] /\ Forall (fun c => c = Some cid) (correlationIds t).
Proof.
  induction 1 as [|e t He _ [IH1 IH2]]; [split; constructor|].
  destruct e; simpl in *; try contradiction; subst; split; auto.
Qed.

Lemma supervision_performs options h cid t :
  Forall (supervision cid) t -> Forall (performs options h cid) t.
Proof.
  intros H. eapply Forall_impl; [exact H|]. intros e []; constructor.
Qed.

Lemma execEnding_performs options h prompt cid events :
  Forall (performs options h cid) (fst (execEnding prompt cid events)).
Proof.
  unfold execEnding. destruct (exitOf events) as [[e|code]|]; simpl.
  - repeat constructor.
  - destruct (bool_decide (code = Some 0%Z)); simpl; [|repeat constructor].
    destruct (truthy _); simpl; repeat constructor.
  - constructor.
Qed.

Lemma executeStatefulCli_performs options h prompt cid :
  Forall (performs options h cid) (trace (executeStatefulCli options h prompt cid)).
Proof.
  pose proof (executeStatefulCli_spec options h prompt cid) as H.
  destruct (child h) as [e|events].
  - rewrite H. unfold execPrologue. repeat constructor.
  - destruct H as (t & l & Ht & Hl & _ & _ & ->).
    rewrite trace_eq. repeat (apply Forall_app; split).
    + unfold execPrologue. repeat (apply Forall_cons; split; [constructor|]).
      apply Forall_nil. exact I.
    + now apply supervision_performs.
    + apply execEnding_performs.
    + now apply supervision_performs.
Qed.

(** The chunks yielded by one run: none, or the whole accumulated output
    as one text chunk followed by one usage chunk. *)
Lemma executeStatefulCli_yields options h prompt cid :
  yields (trace (executeStatefulCli options h prompt cid))
  = yields (fst (execEnding prompt cid (procEvents h))).
Proof.
  pose proof (executeStatefulCli_spec options h prompt cid) as H.
  unfold procEvents. destruct (child h) as [e|events].
  - rewrite H. reflexivity.
  - destruct H as (t & l & Ht & Hl & _ & _ & ->).
    rewrite trace_eq, !yields_app.
    destruct (supervision_quiet cid t Ht) as (-> & _).
    destruct (supervision_quiet cid l Hl) as (-> & _).
    now rewrite app_nil_r.
Qed.

Lemma truthy_false s : truthy s = false <-> s = "".
Proof. destruct s; simpl; split; congruence. Qed.

(** How one run ends: with the error of [spawn] when it throws, and else
    as the exit of the process and its output decide. *)
Lemma executeStatefulCli_result options h prompt cid :
  result (executeStatefulCli options h prompt cid)
  = match child h with
    | inl e => Throw e
    | inr events => snd (execEnding prompt cid events)
    end.
Proof.
  pose proof (executeStatefulCli_spec options h prompt cid) as H.
  destruct (child h) as [e|events].
  - now rewrite H.
  - now destruct H as (t & l & _ & _ & _ & _ & ->).
Qed.

(** A process that exits was spawned. *)
Lemma exitOf_child h x :
  exitOf (procEvents h) = Some x -> exists events, child h = inr events.
Proof. unfold procEvents. destruct (child h); [discriminate | eauto]. Qed.

(** C10.  One run of the process yields a text chunk if and only if the
    process exits with code 0 and its accumulated stdout is not empty after
    trimming.  On any other exit code (null included) the run yields
    nothing and throws the error whose message holds the exit code and the
    accumulated stderr; on exit code 0 with stdout that is empty after
    trimming (empty, or white space only) it yields nothing and throws the
    error saying that no output was produced; otherwise it yields the
    accumulated stdout as one text chunk, then one usage chunk. *)
Theorem C10_text_chunk_iff_clean_exit_with_output
    (options : GeminiCliHandlerOptions) (h : Host) (prompt cid : string) :
  let run := executeStatefulCli options h prompt cid in
  let out := concat (stdoutChunks (procEvents h)) in
  let err := concat (stderrChunks (procEvents h)) in
  ((exists text, In (TextChunk text) (yields (trace run))) <->
   exitOf (procEvents h) = Some (inr (Some 0%Z)) /\ trim out <> "") /\
  (forall code, exitOf (procEvents h) = Some (inr code) -> code <> Some 0%Z ->
     result run = Throw (newError ("Gemini CLI exited with code " +:+ showCode code
                                   +:+ ". Error: " +:+ err)) /\
     yields (trace run) = []) /\
  (exitOf (procEvents h) = Some (inr (Some 0%Z)) -> trim out = "" ->
     result run = Throw (newError "Gemini CLI produced no output") /\
     yields (trace run) = []) /\
  (trim out = "" <-> all_space out) /\
  (exitOf (procEvents h) = Some (inr (Some 0%Z)) -> trim out <> "" ->
     result run = Return tt /\
     yields (trace run)
     = [TextChunk out; UsageChunk (estimateTokens prompt) (estimateTokens out) 0 0]).
Proof.
  intros run out err. subst run.
  rewrite executeStatefulCli_yields.
  assert (Hres : forall x, exitOf (procEvents h) = Some x ->
                 result (executeStatefulCli options h prompt cid)
                 = snd (execEnding prompt cid (procEvents h))).
  { intros x Hx. rewrite executeStatefulCli_result. unfold procEvents in *.
    destruct (child h); [discriminate | reflexivity]. }
  revert Hres. generalize (result (executeStatefulCli options h prompt cid)).
  unfold execEnding. fold out. fold err.
  pose proof (trim_empty_iff out) as Htrim.
  destruct (exitOf (procEvents h)) as [[e|code]|]; intros r Hres;
    try (specialize (Hres _ eq_refl); subst r); simpl.
  - split; [|split; [|split; [|split]]]; [| | |exact Htrim|].
    + split; [intros [text []] | intros [[=] _]].
    + intros c [=].
    + intros [=].
    + intros [=].
  - destruct (bool_decide_reflect (code = Some 0%Z)) as [->|Hne]; simpl.
    + destruct (truthy (trim out)) eqn:Ht; simpl.
      * assert (Hns : trim out <> "").
        { intros Hs. rewrite Hs in Ht. discriminate. }
        split; [|split; [|split; [|split]]]; [| | |exact Htrim|].
        -- split; [intros _; split; [reflexivity | exact Hns] | eauto].
        -- intros c [= <-] Hc. contradiction.
        -- intros _ Hs. contradiction.
        -- intros _ _. split; reflexivity.
      * apply truthy_false in Ht.
        split; [|split; [|split; [|split]]]; [| | |exact Htrim|].
        -- split; [intros [text []] | intros [_ Hns]; contradiction].
        -- intros c [= <-] Hc. contradiction.
        -- intros _ _. split; reflexivity.
        -- intros _ Hns. contradiction.
    + split; [|split; [|split; [|split]]]; [| | |exact Htrim|].
      * split; [intros [text []] | intros [[= ->] _]; contradiction].
      * intros c [= <-] _. split; reflexivity.
      * intros [= ->]. contradiction.
      * intros [= ->]. contradiction.
  - split; [|split; [|split; [|split]]]; [| | |exact Htrim|].
    + split; [intros [text []] | intros [[=] _]].
    + intros c [=].
    + intros [=].
    + intros [=].
Qed.

Lemma C10_witness :
  result (executeStatefulCli plainOptions (hostWith "00112233aabbccdd" failing_run)
                             "Human: tidy up" "00112233aabbccdd")
  = Throw (newError "Gemini CLI exited with code 2. Error: boom") /\
  yields (trace (executeStatefulCli plainOptions (hostWith "00112233aabbccdd" failing_run)
                                    "Human: tidy up" "00112233aabbccdd")) = [].
Proof.
  apply (proj1 (proj2 (C10_text_chunk_iff_clean_exit_with_output
           plainOptions (hostWith "00112233aabbccdd" failing_run)
           "Human: tidy up" "00112233aabbccdd")) (Some 2%Z)).
  - reflexivity.
  - discriminate.
Defined.

(* --------------------------------------------------------------------- *)
(** *** One invocation of createMessage *)

Lemma bind_Forall {A B} (P : effect -> Prop) (m : M A) (k : A -> M B) :
  Forall P (trace m) -> (forall a, Forall P (trace (k a))) ->
  Forall P (trace (bind m k)).
Proof.
  destruct m as [[t [a|e|]] l]; unfold bind, trace, during, afterwards; simpl; auto.
  intros Ht Hk. specialize (Hk a). destruct (k a) as [[t' o] l']. simpl in *.
  rewrite !Forall_app in *. tauto.
Qed.

Lemma try_catch_Forall {A} (P : effect -> Prop) (m : M A) (h : JsError -> M A) :
  Forall P (trace m) -> (forall e, Forall P (trace (h e))) ->
  Forall P (trace (try_catch m h)).
Proof.
  destruct m as [[t [a|e|]] l]; unfold try_catch, trace, during, afterwards;
    simpl; auto.
  intros Ht Hh. specialize (Hh e). destruct (h e) as [[t' o] l']. simpl in *.
  rewrite !Forall_app in *. tauto.
Qed.

Lemma ensureAuthentication_performs options h cid :
  Forall (performs options h cid) (trace (ensureAuthentication h cid)) /\
  yields (trace (ensureAuthentication h cid)) = [].
Proof.
  unfold ensureAuthentication.
  destruct (silentSession h) as [e|[s|]]; munfold.
  - split; repeat constructor.
  - split; repeat constructor.
  - destruct (bool_decide (infoChoice h = Some "Authenticate")); munfold.
    + destruct (createdSession h) as [e|s]; munfold; split; repeat constructor.
    + split; repeat constructor.
Qed.

(** Everything an invocation does is one of the effects of [performs],
    under the id that the invocation drew. *)
Lemma createMessage_performs options systemPrompt messages h :
  Forall (performs options h (randomHex h))
         (trace (createMessage options systemPrompt messages h)).
Proof.
  unfold createMessage. apply try_catch_Forall.
  - apply bind_Forall.
    + apply ensureAuthentication_performs.
    + intros _. apply executeStatefulCli_performs.
  - intros e. repeat constructor.
Qed.

(** Every log line and every spawn of an invocation carries the id drawn
    by that invocation, and no confirmation dialog is ever shown. *)
Lemma createMessage_attributed options systemPrompt messages h :
  Forall (attributed (randomHex h))
         (trace (createMessage options systemPrompt messages h)).
Proof. eapply performs_attributed, createMessage_performs. Qed.

(** When the authentication check passes, an invocation yields what the
    run of the process yields. *)
Lemma createMessage_yields options systemPrompt messages h s :
  silentSession h = inr (Some s) ->
  yields (trace (createMessage options systemPrompt messages h))
  = yields (fst (execEnding (formatConversation systemPrompt messages)
                            (randomHex h) (procEvents h))).
Proof.
  intros Hs. rewrite <- executeStatefulCli_yields with (options := options) (h := h).
  unfold createMessage, ensureAuthentication. rewrite Hs. munfold.
  destruct (executeStatefulCli _ _ _ _) as [[t [[]|e|]] l];
    unfold trace, during, afterwards; simpl;
    rewrite ?yields_app; simpl; rewrite ?app_nil_r; reflexivity.
Qed.

(** The modal confirmation grants approval only on the answer Proceed;
    a dismissed dialog and a failing dialog both deny. *)
Lemma handleUserConfirmation_fail_closed answer text cid :
  confirmations (trace (handleUserConfirmation answer text cid)) <> [] /\
  result (handleUserConfirmation answer text cid)
  = Return (bool_decide (answer = inr (Some "Proceed"))).
Proof.
  unfold handleUserConfirmation.
  destruct answer as [e|[c|]]; munfold; (split; [discriminate|]); try reflexivity.
  destruct (String.eqb_spec c "Proceed") as [->|Hne]; simpl.
  - reflexivity.
  - rewrite bool_decide_eq_false_2; [reflexivity | congruence].
Qed.

(** C1.  On the run where the process writes one dangerous tool call and
    exits with code 0, the chunk is classified as a tool call that requires
    confirmation, its text is delivered to the caller, and no confirmation
    was requested.  No invocation ever requests one: the
    confirmation dialog, which by itself denies unless the answer is
    Proceed, is never invoked. *)
Theorem C1_dangerous_tool_call_delivered_unconfirmed :
  let run := createMessage plainOptions "" one_message
               (hostWith "00112233aabbccdd" dangerous_run) in
  result (parseCliOutput rm_chunk "00112233aabbccdd") = Return (ToolCall rm_chunk true) /\
  result run = Return tt /\
  yields (trace run) = [TextChunk rm_chunk; UsageChunk 4 6 0 0] /\
  confirmations (trace run) = [] /\
  (forall options systemPrompt messages h,
     confirmations (trace (createMessage options systemPrompt messages h)) = []) /\
  (forall answer text cid,
     result (handleUserConfirmation answer text cid) = Return true ->
     answer = inr (Some "Proceed")).
Proof.
  split; [reflexivity|]. split; [reflexivity|]. split; [reflexivity|].
  split; [reflexivity|]. split.
  - intros. eapply attributed_quiet, createMessage_attributed.
  - intros answer text cid H.
    destruct (handleUserConfirmation_fail_closed answer text cid) as [_ E].
    rewrite E in H. injection H as H. now apply bool_decide_eq_true in H.
Qed.

(** C3.  On the run where the process writes three chunks and exits with
    code 0, the caller receives one text chunk, the concatenation of the
    three, and it receives it only after the close of the process has been
    handled; nothing is yielded before.  In every run the yielded chunks are none,
    or the whole accumulated output followed by the usage. *)
Theorem C3_output_buffered_until_exit :
  let cid := "00112233aabbccdd" in
  let run := createMessage plainOptions "" one_message (hostWith cid three_chunks) in
  let all := ("Thinking: plan" +:+ nl) +:+ ("Tool: ls" +:+ nl) +:+ ("All done" +:+ nl) in
  yields (trace run) = [TextChunk all; UsageChunk 4 9 0 0] /\
  (exists before after,
     trace run = before
                 ++ Log INFO cid "CLI process completed with exit code: 0"
                 :: Yield (TextChunk all) :: after /\
     yields before = []) /\
  (forall options h prompt c,
     let out := concat (stdoutChunks (procEvents h)) in
     yields (trace (executeStatefulCli options h prompt c)) = [] \/
     yields (trace (executeStatefulCli options h prompt c))
     = [TextChunk out; UsageChunk (estimateTokens prompt) (estimateTokens out) 0 0]).
Proof.
  split; [reflexivity|]. split.
  - exists (firstn 10 (trace (createMessage plainOptions "" one_message
                                (hostWith "00112233aabbccdd" three_chunks)))),
           (skipn 12 (trace (createMessage plainOptions "" one_message
                               (hostWith "00112233aabbccdd" three_chunks)))).
    split; vm_compute; reflexivity.
  - intros options h prompt c out. rewrite executeStatefulCli_yields.
    unfold execEnding. fold out.
    destruct (exitOf (procEvents h)) as [[e|code]|]; simpl; auto.
    destruct (bool_decide (code = Some 0%Z)); simpl; auto.
    destruct (truthy (trim out)); simpl; auto.
Qed.

(* --------------------------------------------------------------------- *)
(** *** Environment and arguments of the spawned process *)





(* --------------------------------------------------------------------- *)
(** *** Timeout and retry *)

Lemma createMessage_signed_in options systemPrompt messages h s events :
  silentSession h = inr (Some s) -> child h = inr events ->
  exists t l,
    Forall (supervision (randomHex h)) t /\ Forall (supervision (randomHex h)) l /\
    (In (Kill "SIGTERM") t <-> timerFires events = true) /\
    let prompt := formatConversation systemPrompt messages in
    let ending := execEnding prompt (randomHex h) events in
    createMessage options systemPrompt messages h
    = ([GetSession false; Log INFO (randomHex h) "Authentication verified"]
         ++ execPrologue options h prompt (randomHex h) ++ t ++ fst ending
         ++ match snd ending with
            | Throw _ => [Log ERROR (randomHex h) "CLI execution failed"]
            | _ => []
            end,
       match snd ending with
       | Throw e => Throw (createUserFriendlyError e)
       | o => o
       end, l).
Proof.
  intros Hs Hc.
  pose proof (executeStatefulCli_spec options h
                (formatConversation systemPrompt messages) (randomHex h)) as H.
  rewrite Hc in H. destruct H as (t & l & Ht & Hl & Hk & _ & E).
  exists t, l. split; [exact Ht|]. split; [exact Hl|]. split; [exact Hk|]. cbv zeta.
  unfold createMessage, ensureAuthentication. rewrite Hs. munfold. rewrite E.
  destruct (snd (execEnding _ _ _)) as [[]|e|]; simpl;
    rewrite <- ?app_assoc, ?app_nil_r; reflexivity.
Qed.

(** One step of the retry loop of [createMessageWithRetry]. *)
Lemma createMessageWithRetry_unfold retryable options systemPrompt messages world :
  let first := createMessage options systemPrompt messages (world 0) in
  let second := createMessage options systemPrompt messages (world 1) in
  createMessageWithRetry retryable options systemPrompt messages world
  = match result first with
    | Throw e =>
        if retryable e then (trace first ++ trace second, result second, [])
        else settled first
    | _ => settled first
    end.
Proof.
  cbv zeta. unfold createMessageWithRetry, withRetry. simpl.
  destruct (createMessage options systemPrompt messages (world 0)) as [[t1 o1] l1].
  destruct (createMessage options systemPrompt messages (world 1)) as [[t2 o2] l2].
  unfold settled, trace, result, during, afterwards. simpl.
  destruct o1 as [[]|e|]; simpl; try reflexivity.
  destruct (retryable e); simpl.
  - destruct o2 as [[]|e2|]; simpl; rewrite ?andb_false_r; munfold;
      rewrite ?app_nil_r; reflexivity.
  - now rewrite app_nil_r.
Qed.

(** C4, as stated, fails: the process of the first invocation is
    terminated by the timer, yet the error that surfaces from it is the
    generic one, not the time-out error, and when the call is retried the
    second invocation draws its own correlation id: its log lines and the
    environment of its process carry another id than those of the first. *)
Lemma C4_counterexample :
  let first := createMessage plainOptions "" one_message (retry_world 0) in
  let whole := createMessageWithRetry retry_always plainOptions "" one_message retry_world in
  In (Kill "SIGTERM") (trace first) /\
  result first
  = Throw (newError "Gemini CLI error: Gemini CLI exited with code null. Error: ") /\
  includes "Gemini CLI error: Gemini CLI exited with code null. Error: " "timed out" = false /\
  map snd (spawned (trace whole))
  = [ {[ "GEMINI_CLI_CORRELATION_ID" := "00112233aabbccdd";
         "GEMINI_CLI_MODE" := "interactive" ]};
      {[ "GEMINI_CLI_CORRELATION_ID" := "8899aabbccddeeff";
         "GEMINI_CLI_MODE" := "interactive" ]} ] /\
  In (Some "8899aabbccddeeff") (correlationIds (trace whole)).
Proof.
  cbv zeta. split; [vm_compute; tauto|]. split; [reflexivity|].
  split; [reflexivity|]. split; [vm_compute; reflexivity|].
  vm_compute. tauto.
Qed.

(** C4 (amended).  When the timer fires before the process exits, the
    process is sent SIGTERM; when the process then closes with a non-zero
    or null exit code, the invocation yields nothing and throws an error.
    Every invocation draws its own correlation id: all its log lines and
    the environment of its process carry the id it drew.  A retry is a
    second invocation of the method, so it carries the id drawn by the
    second invocation, not the id of the first; at most one retry is
    made. *)
Theorem C4_timeout_kills_and_retry_draws_own_id
    (retryable : JsError -> bool) (options : GeminiCliHandlerOptions)
    (systemPrompt : string) (messages : list MessageParam) (world : nat -> Host) :
  let first := createMessage options systemPrompt messages (world 0) in
  let second := createMessage options systemPrompt messages (world 1) in
  let whole := createMessageWithRetry retryable options systemPrompt messages world in
  (forall s, silentSession (world 0) = inr (Some s) ->
     timerFires (procEvents (world 0)) = true ->
     In (Kill "SIGTERM") (trace first)) /\
  (forall s code, silentSession (world 0) = inr (Some s) ->
     exitOf (procEvents (world 0)) = Some (inr code) -> code <> Some 0%Z ->
     yields (trace first) = [] /\ exists e, result first = Throw e) /\
  Forall (fun c => c = Some (randomHex (world 0))) (correlationIds (trace first)) /\
  Forall (fun c => c = Some (randomHex (world 1))) (correlationIds (trace second)) /\
  (whole = settled first \/
   exists e, result first = Throw e /\ retryable e = true /\
             whole = (trace first ++ trace second, result second, [])).
Proof.
  cbv zeta. split; [|split; [|split; [|split]]].
  - intros s Hs Ht.
    assert (Hc : exists events, child (world 0) = inr events).
    { unfold procEvents in Ht. destruct (child (world 0)); [discriminate | eauto]. }
    destruct Hc as [events Hc]. unfold procEvents in Ht. rewrite Hc in Ht.
    destruct (createMessage_signed_in options systemPrompt messages _ s events Hs Hc)
      as (t & l & _ & _ & Hk & E).
    cbv zeta in E. rewrite E, trace_eq.
    apply in_app_iff. left.
    apply in_app_iff. right. apply in_app_iff. right.
    apply in_app_iff. left. now apply Hk.
  - intros s code Hs He Hc.
    rewrite (createMessage_yields _ _ _ _ s Hs).
    destruct (exitOf_child _ _ He) as [events Hev].
    unfold procEvents in *. rewrite Hev in *.
    destruct (createMessage_signed_in options systemPrompt messages _ s events Hs Hev)
      as (t & l & _ & _ & _ & E).
    cbv zeta in E. rewrite E, result_eq. unfold execEnding. rewrite He. cbn [snd].
    rewrite bool_decide_eq_false_2 by exact Hc. simpl. eauto.
  - eapply attributed_quiet, createMessage_attributed.
  - eapply attributed_quiet, createMessage_attributed.
  - rewrite createMessageWithRetry_unfold. cbv zeta.
    destruct (result (createMessage options systemPrompt messages (world 0)))
      as [[]|e|] eqn:E; auto.
    destruct (retryable e) eqn:Er; eauto.
Qed.

Lemma C4_witness :
  In (Kill "SIGTERM") (trace (createMessage plainOptions "" one_message (retry_world 0))).
Proof.
  apply (proj1 (C4_timeout_kills_and_retry_draws_own_id
                  retry_always plainOptions "" one_message retry_world) signedIn);
    reflexivity.
Defined.

(* --------------------------------------------------------------------- *)
(** *** Credential resolution *)

Ltac punfold :=
  unfold mbind, PM_bind, pbind, mret, PM_ret, pret, pthrow, ptry, modify,
    GeminiAuth.get, updateStatusBar, invoke, store, fire in *;
  simpl.

Lemma getStoredSession_eq p :
  getStoredSession p
  = (p, inr match secretStorage p !! "gemini-oauth-session" with
            | Some (SessionData s _) => Some s
            | _ => None
            end).
Proof.
  unfold getStoredSession. punfold.
  destruct (secretStorage p !! "gemini-oauth-session") as [[|s r]|]; reflexivity.
Qed.

(** The consent flow in closed form: it stores the session that it grants
    and changes nothing else. *)
Lemma performOAuthFlow_eq w scopes p :
  performOAuthFlow w scopes p
  = match consentResult w (storeRejects p) with
    | inr (s, r) =>
        (mkProvider (<["gemini-oauth-session" := SessionData s r]> (secretStorage p))
                    (statusBarText p) (sessionChanges p) (invoked p)
                    (storeRejects p) (deleteRejects p), inr s)
    | inl e => (p, inl e)
    end.
Proof.
  unfold consentResult, performOAuthFlow, handleCallback.
  destruct (roundTrip w) as [e| |rq ex]; punfold; auto.
  destruct (bool_decide (cb_state rq = Some (oauthState w))); simpl.
  - destruct (present (cb_error rq)); simpl; [reflexivity|].
    destruct (negb (present (cb_code rq)) || negb (present (cb_state rq))); simpl;
      [reflexivity|].
    destruct ex as [e|tokens]; simpl; [reflexivity|].
    punfold. destruct p as [sec sb ch inv [f|] dr]; reflexivity.
  - destruct (present (cb_error rq)); simpl; [reflexivity|].
    destruct (negb (present (cb_code rq)) || negb (present (cb_state rq)));
      reflexivity.
Qed.

(** The consent flow grants a session exactly when the consent of the user
    offers one and the storage accepts it. *)
Lemma consentResult_inr w fault s r :
  consentResult w fault = inr (s, r) ->
  fault = None /\ consentCredential w = Some s /\
  exists request tokens,
    roundTrip w = CallbackArrives request (inr tokens) /\
    cb_state request = Some (oauthState w) /\
    present (cb_code request) = true /\ present (cb_error request) = false /\
    s = oauthSession w tokens /\ r = refresh_token tokens.
Proof.
  unfold consentResult, consentCredential.
  destruct (roundTrip w) as [e| |rq ex]; try discriminate.
  destruct (bool_decide_reflect (cb_state rq = Some (oauthState w))) as [Hst|Hst];
    [|discriminate].
  destruct (present (cb_error rq)) eqn:He; [discriminate|].
  destruct (present (cb_code rq)) eqn:Hc; [|discriminate].
  destruct (present (cb_state rq)) eqn:Hs; [|discriminate]. simpl.
  destruct ex as [e|tokens]; [discriminate|].
  destruct fault; [discriminate|]. intros [= <- <-].
  repeat split. exists rq, tokens. repeat split; assumption.
Qed.

Lemma consentResult_credential w :
  match consentCredential w with
  | Some s =>
      (exists r, consentResult w None = inr (s, r)) /\
      forall e, consentResult w (Some e) = inl e
  | None => exists e, forall fault, consentResult w fault = inl e
  end.
Proof.
  unfold consentResult, consentCredential.
  destruct (roundTrip w) as [e| |rq ex]; try (eexists; reflexivity).
  destruct (bool_decide (cb_state rq = Some (oauthState w))); simpl.
  2: { destruct ex; eexists; reflexivity. }
  destruct (present (cb_error rq)); simpl.
  { rewrite !andb_false_r. destruct ex; eexists; reflexivity. }
  destruct (present (cb_code rq)); simpl.
  2: { rewrite !andb_false_r. destruct ex; eexists; reflexivity. }
  destruct (present (cb_state rq)); simpl.
  2: { destruct ex; eexists; reflexivity. }
  destruct ex as [e|tokens]; [exists e; reflexivity|].
  split; [eexists; reflexivity | reflexivity].
Qed.

(** [createSession] in closed form, by what the tiers have to offer and
    by what the storage does. *)
Lemma createSession_eq w scopes p :
  createSession w scopes p =
  let at_ tiers status secrets changes :=
    mkProvider secrets status changes (invoked p ++ tiers)
               (storeRejects p) (deleteRejects p) in
  let failed tiers (e : JsError) :=
    (at_ tiers "$(key) Gemini: Authentication Failed" (secretStorage p)
         (sessionChanges p),
     inl (newError ("Authentication failed: " +:+ err_message e))) in
  match storedCredential p with
  | Some s =>
      (at_ [TierSession] "$(key) Gemini: Authenticated" (secretStorage p)
           (sessionChanges p), inr s)
  | None =>
      match apiKeyCredential w with
      | Some s =>
          match storeRejects p with
          | None =>
              (at_ [TierSession; TierApiKey] "$(key) Gemini: Authenticated (API Key)"
                   (<["gemini-oauth-session" := SessionData s None]> (secretStorage p))
                   (sessionChanges p), inr s)
          | Some e => failed [TierSession; TierApiKey] e
          end
      | None =>
          match consentResult w (storeRejects p) with
          | inr (s, r) =>
              (at_ tierOrder "$(key) Gemini: Authenticated"
                   (<["gemini-oauth-session" := SessionData s r]> (secretStorage p))
                   (sessionChanges p ++ [mkChange [s] []]), inr s)
          | inl e => failed tierOrder e
          end
      end
  end.
Proof.
  cbv zeta.
  unfold createSession, storedCredential, apiKeyCredential,
    tryApiKeyAuthentication, tryAdcAuthentication.
  punfold. rewrite getStoredSession_eq. simpl.
  destruct (secretStorage p !! "gemini-oauth-session") as [[|s rt]|]; simpl.
  all: try (destruct (isValidSession s); simpl; [reflexivity|]).
  all: destruct (env w !! "GEMINI_API_KEY") as [k|]; simpl;
         try (destruct (truthy k); simpl;
              [destruct (storeRejects p); simpl; rewrite <- ?app_assoc; reflexivity|]).
  all: match goal with
       | |- context [performOAuthFlow ?w0 ?sc ?q] =>
           rewrite (performOAuthFlow_eq w0 sc q); simpl;
           destruct (consentResult w0 (storeRejects p)) as [e|[s2 r2]]; simpl;
           rewrite <- ?app_assoc; reflexivity
       end.
Qed.

(** C6.  [createSession] invokes the tiers in the order session, API key,
    default credentials, consent, but the tier of the default credentials
    is a stub that never offers a credential.  In the world where the
    default credentials are the only credential on offer, the third tier
    succeeds by the specification, and [createSession] goes past it to the
    consent flow and throws.  In general it returns the credential of the
    first of the other three tiers that offers one, having invoked the
    tiers up to it, unless the storage rejects the session of the API key
    or of the consent, in which case it throws the error of the storage;
    when none of the three offers one it has invoked all four and throws
    the authentication error. *)
Theorem C6_default_credentials_are_passed_over :
  (tierOutcome adc_world noProvider TierSession = None /\
   tierOutcome adc_world noProvider TierApiKey = None /\
   tierOutcome adc_world noProvider TierAdc = Some adc_session /\
   snd (createSession adc_world SCOPES noProvider)
   = inl (newError "Authentication failed: Authentication timeout") /\
   invoked (fst (createSession adc_world SCOPES noProvider)) = tierOrder) /\
  (forall p, tryAdcAuthentication p = (p, inr None)) /\
  (forall w scopes p,
     let r := snd (createSession w scopes p) in
     let tried := invoked (fst (createSession w scopes p)) in
     (forall before t after s,
        tierOrder = before ++ t :: after -> t <> TierAdc ->
        Forall (fun t' => t' <> TierAdc -> tierOutcome w p t' = None) before ->
        tierOutcome w p t = Some s ->
        tried = invoked p ++ before ++ [t] /\
        match t, storeRejects p with
        | TierSession, _ | _, None => r = inr s
        | _, Some e => r = inl (newError ("Authentication failed: " +:+ err_message e))
        end) /\
     (Forall (fun t => t <> TierAdc -> tierOutcome w p t = None) tierOrder ->
      (exists e, r = inl (newError ("Authentication failed: " +:+ err_message e))) /\
      tried = invoked p ++ tierOrder)).
Proof.
  split; [repeat split|]. split; [reflexivity|].
  intros w scopes p. cbv zeta. rewrite createSession_eq. cbv zeta.
  pose proof (consentResult_credential w) as Hcr.
  split.
  - intros before t after s Ho Hna Hb Ht. unfold tierOrder in Ho.
    destruct before as [|b1 [|b2 [|b3 [|b4 before]]]]; simpl in Ho.
    + injection Ho as <- _. simpl in Ht. rewrite Ht. simpl. auto.
    + injection Ho as <- <- _. simpl in Ht.
      apply Forall_cons in Hb as [H1 _]. simpl in H1.
      rewrite H1, Ht by discriminate.
      destruct (storeRejects p); simpl; auto.
    + injection Ho as <- <- <- _. contradiction.
    + injection Ho as <- <- <- <- _. simpl in Ht.
      apply Forall_cons in Hb as [H1 Hb]. apply Forall_cons in Hb as [H2 _].
      simpl in H1, H2. rewrite H1, H2 by discriminate.
      rewrite Ht in Hcr. destruct Hcr as [[r Hr] He].
      destruct (storeRejects p) as [e|].
      * rewrite He. simpl. auto.
      * rewrite Hr. simpl. auto.
    + exfalso. injection Ho as _ _ _ _ Ho. destruct before; discriminate.
  - intros Hall. unfold tierOrder in Hall.
    apply Forall_cons in Hall as [H1 Hall]. apply Forall_cons in Hall as [H2 Hall].
    apply Forall_cons in Hall as [_ Hall]. apply Forall_cons in Hall as [H4 _].
    simpl in H1, H2, H4. rewrite H1, H2 by discriminate.
    rewrite H4 in Hcr by discriminate. destruct Hcr as [e He].
    rewrite He. simpl. eauto.
Qed.

Lemma C6_witness :
  invoked (fst (createSession api_key_world SCOPES noProvider))
  = invoked noProvider ++ [TierSession] ++ [TierApiKey] /\
  snd (createSession api_key_world SCOPES noProvider) = inr (apiKeySession "AIza-key").
Proof.
  apply (proj1 (proj2 (proj2 C6_default_credentials_are_passed_over)
                  api_key_world SCOPES noProvider)
           [TierSession] TierApiKey [TierAdc; TierOAuth]).
  - reflexivity.
  - discriminate.
  - repeat constructor.
  - reflexivity.
Defined.

(** C9.  When the secret storage holds a session obtained by the consent
    flow, with a token that expires one hour later, [getSessions] returns the stored session and [createSession] returns it
    after having invoked the session tier only, whatever the clock reads:
    the validity test looks at the presence of the token, and the expiry
    that came with the tokens is not even stored. *)
Theorem C9_expired_session_is_returned :
  expiry_date granted_tokens = Some 1700003600000%Z /\
  secretStorage provider_after_consent !! "gemini-oauth-session"
  = Some (SessionData (oauthSession consent_world granted_tokens) None) /\
  forall w : World,
    snd (getSessions SCOPES provider_after_consent)
    = inr [oauthSession consent_world granted_tokens] /\
    snd (createSession w SCOPES provider_after_consent)
    = inr (oauthSession consent_world granted_tokens) /\
    invoked (fst (createSession w SCOPES provider_after_consent))
    = invoked provider_after_consent ++ [TierSession].
Proof.
  split; [reflexivity|]. split; [reflexivity|]. intros w. split; [reflexivity|].
  rewrite createSession_eq. split; reflexivity.
Qed.

(** When nothing is on offer, all four tiers are invoked in order and the
    authentication error is thrown. *)
Example createSession_all_tiers_fail :
  snd (createSession barren_world SCOPES noProvider)
  = inl (newError "Authentication failed: Authentication timeout") /\
  invoked (fst (createSession barren_world SCOPES noProvider)) = tierOrder /\
  statusBarText (fst (createSession barren_world SCOPES noProvider))
  = "$(key) Gemini: Authentication Failed".
Proof. repeat split. Qed.

(** When the storage rejects the session made from the API key, the
    resolution ends at the second tier with the error of the storage. *)
Example createSession_storage_rejects :
  snd (createSession api_key_world SCOPES read_only_provider)
  = inl (newError "Authentication failed: storage quota exceeded") /\
  invoked (fst (createSession api_key_world SCOPES read_only_provider))
  = [TierSession; TierApiKey] /\
  secretStorage (fst (createSession api_key_world SCOPES read_only_provider)) = ∅.
Proof. repeat split. Qed.

(* ===================================================================== *)
(** * Further properties of the code *)
(* ===================================================================== *)

Import MockCli.

(* --------------------------------------------------------------------- *)
(** *** Token estimates *)

Lemma length_append (a b : string) :
  String.length (a +:+ b) = String.length a + String.length b.
Proof.
  induction a as [|x a IH]; [reflexivity|].
  rewrite append_cons. simpl. now rewrite IH.
Qed.

(** X1.  The token estimate is the length divided by four, rounded up: it
    is zero exactly for the empty text, and four times the estimate
    overshoots the length by at most three. *)
Theorem X1_estimateTokens_bounds (text : string) :
  let n := Z.of_nat (String.length text) in
  (n <= 4 * estimateTokens text < n + 4)%Z /\
  (estimateTokens text = 0%Z <-> text = "").
Proof.
  cbv zeta. unfold estimateTokens. split.
  - pose proof (Z.div_mod (Z.of_nat (String.length text) + 3) 4) as H.
    pose proof (Z.mod_pos_bound (Z.of_nat (String.length text) + 3) 4) as Hm.
    lia.
  - split.
    + intros H. destruct text as [|a text]; [reflexivity|]. exfalso.
      simpl String.length in H.
      pose proof (Z.div_mod (Z.of_nat (S (String.length text)) + 3) 4) as Hd.
      pose proof (Z.mod_pos_bound (Z.of_nat (S (String.length text)) + 3) 4) as Hm.
      lia.
    + intros ->. reflexivity.
Qed.

(** X2.  Estimates grow with the text and are subadditive: the estimate of
    a concatenation is at least the estimate of either part and at most the
    sum of the two estimates. *)
Theorem X2_estimateTokens_concatenation (a b : string) :
  (estimateTokens a <= estimateTokens (a +:+ b))%Z /\
  (estimateTokens b <= estimateTokens (a +:+ b))%Z /\
  (estimateTokens (a +:+ b) <= estimateTokens a + estimateTokens b)%Z.
Proof.
  unfold estimateTokens. rewrite length_append, Nat2Z.inj_add.
  pose proof (Nat2Z.is_nonneg (String.length a)).
  pose proof (Nat2Z.is_nonneg (String.length b)).
  repeat split.
  - apply Z.div_le_mono; lia.
  - apply Z.div_le_mono; lia.
  - pose proof (Z.div_mod (Z.of_nat (String.length a) + 3) 4).
    pose proof (Z.mod_pos_bound (Z.of_nat (String.length a) + 3) 4).
    pose proof (Z.div_mod (Z.of_nat (String.length b) + 3) 4).
    pose proof (Z.mod_pos_bound (Z.of_nat (String.length b) + 3) 4).
    pose proof (Z.div_mod (Z.of_nat (String.length a) + Z.of_nat (String.length b) + 3) 4).
    pose proof (Z.mod_pos_bound (Z.of_nat (String.length a) + Z.of_nat (String.length b) + 3) 4).
    lia.
Qed.

(* --------------------------------------------------------------------- *)
(** *** Command-line arguments, and what the mock makes of them *)



Lemma parsePrompt_found pre p post :
  ~ In "--prompt" pre -> parsePrompt (pre ++ "--prompt" :: p :: post) = p.
Proof.
  induction pre as [|a pre IH]; intros Hn; simpl.
  - reflexivity.
  - destruct (String.eqb_spec a "--prompt") as [->|Hne].
    + exfalso. apply Hn. now left.
    + apply IH. intros H. apply Hn. now right.
Qed.

Lemma parsePrompt_none args :
  ~ In "--prompt" (removelast args) -> parsePrompt args = "".
Proof.
  induction args as [|a [|b rest] IH]; intros Hn.
  - reflexivity.
  - simpl. now destruct (String.eqb a "--prompt").
  - change (removelast (a :: b :: rest)) with (a :: removelast (b :: rest)) in Hn.
    cbn [parsePrompt]. destruct (String.eqb_spec a "--prompt") as [->|Hne].
    + exfalso. apply Hn. now left.
    + apply IH. intros H. apply Hn. now right.
Qed.

(** X4.  The mock reads as its prompt the argument that follows the first
    [--prompt]; when [--prompt] occurs nowhere, or only as the last
    argument, the prompt is empty. *)
Theorem X4_mock_parsePrompt (args : list string) :
  (forall pre p post,
     args = pre ++ "--prompt" :: p :: post -> ~ In "--prompt" pre ->
     parsePrompt args = p) /\
  (~ In "--prompt" (removelast args) -> parsePrompt args = "").
Proof.
  split.
  - intros pre p post -> Hn. now apply parsePrompt_found.
  - apply parsePrompt_none.
Qed.

Lemma X4_witness :
  parsePrompt ["--verbose"; "--prompt"; "hello"; "--prompt"; "again"] = "hello".
Proof.
  apply (proj1 (X4_mock_parsePrompt
                  ["--verbose"; "--prompt"; "hello"; "--prompt"; "again"])
           ["--verbose"] "hello" ["--prompt"; "again"]).
  - reflexivity.
  - simpl. intros [H|[]]. discriminate.
Defined.

(** X5.  Whatever the options, the mock finds no prompt in the argument
    vector that the handler builds: the conversation reaches the process on
    its standard input only. *)
Theorem X5_mock_sees_no_prompt_in_arguments (options : GeminiCliHandlerOptions) :
  parsePrompt (buildCliArguments options) = "".
Proof.
  apply parsePrompt_none. unfold buildCliArguments.
  destruct (bool_decide (useJsonMode options = Some true)),
           (bool_decide (enableInteractiveMode options <> Some false)),
           (bool_decide (requireConfirmation options <> Some false)),
           (apiModelId options) as [[|c id]|]; simpl;
    intuition discriminate.
Qed.

(* --------------------------------------------------------------------- *)
(** *** The deny list and the classifier *)

Lemma lowerChar_idempotent a : lowerChar (lowerChar a) = lowerChar a.
Proof. destruct a as [[] [] [] [] [] [] [] []]; reflexivity. Qed.

Lemma toLowerCase_idempotent s : toLowerCase (toLowerCase s) = toLowerCase s.
Proof.
  induction s as [|a s IH]; [reflexivity|].
  simpl. now rewrite lowerChar_idempotent, IH.
Qed.

Lemma eq_ci_refl s : eq_ci s s.
Proof. apply eq_ci_lower. reflexivity. Qed.

Lemma contains_ci_context pre s post w :
  contains_ci s w -> contains_ci (pre +:+ s +:+ post) w.
Proof.
  intros (a & mid & c & -> & Hci).
  exists (pre +:+ a), mid, (c +:+ post). split; [|exact Hci].
  now rewrite !append_assoc.
Qed.

(** X6.  The test for dangerous actions only looks at the text up to case,
    and text around a dangerous action never hides it: two texts that
    differ in case only get the same answer, every text that contains a
    deny-list entry in any case is dangerous, and a dangerous text stays
    dangerous inside any longer text. *)
Theorem X6_requiresUserConfirmation_robust :
  (forall s t, eq_ci s t ->
     requiresUserConfirmation s = requiresUserConfirmation t) /\
  (forall pre w w' post, In w dangerousActions -> eq_ci w' w ->
     requiresUserConfirmation (pre +:+ w' +:+ post) = true) /\
  (forall pre s post, requiresUserConfirmation s = true ->
     requiresUserConfirmation (pre +:+ s +:+ post) = true).
Proof.
  split; [|split].
  - intros s t H. apply eq_ci_lower in H. unfold requiresUserConfirmation.
    now rewrite H.
  - intros pre w w' post Hin Hci. apply requiresUserConfirmation_spec.
    exists w. split; [exact Hin|]. now exists pre, w', post.
  - intros pre s post H. apply requiresUserConfirmation_spec in H as (w & Hin & Hc).
    apply requiresUserConfirmation_spec. exists w. split; [exact Hin|].
    now apply contains_ci_context.
Qed.

Lemma X6_witness :
  requiresUserConfirmation ("please " +:+ "SuDo" +:+ " make install") = true.
Proof.
  apply (proj1 (proj2 X6_requiresUserConfirmation_robust) "please " "sudo" "SuDo"
           " make install").
  - simpl. tauto.
  - repeat constructor.
Defined.

(** X7.  The object returned for a chunk always carries the chunk itself
    as its content, the classification does not depend on the correlation
    id, and classifying writes at most one log line, under the given id. *)
Theorem X7_parseCliOutput_content_and_log (text cid : string) :
  exists ev,
    result (parseCliOutput text cid) = Return ev /\
    contentOf ev = text /\
    (forall cid', result (parseCliOutput text cid') = Return ev) /\
    (trace (parseCliOutput text cid) = [] \/
     exists message, trace (parseCliOutput text cid) = [Log INFO cid message]).
Proof.
  rewrite parseCliOutput_eq.
  destruct (hasReasoningMarker text) eqn:H1.
  { eexists. repeat split; [intros; now rewrite parseCliOutput_eq, H1 | eauto]. }
  destruct (hasActionMarker text) eqn:H2.
  { eexists. repeat split; [intros; now rewrite parseCliOutput_eq, H1, H2 | eauto]. }
  destruct (hasConfirmationMarker text) eqn:H3.
  { eexists. repeat split; [intros; now rewrite parseCliOutput_eq, H1, H2, H3 | eauto]. }
  destruct (matchBraces text) as [m|] eqn:H4.
  - destruct (Json.parse m) as [e|v] eqn:H5.
    + eexists. repeat split;
        [intros; now rewrite parseCliOutput_eq, H1, H2, H3, H4, H5 | eauto].
    + eexists. repeat split;
        [intros; now rewrite parseCliOutput_eq, H1, H2, H3, H4, H5 | eauto].
  - eexists. repeat split;
      [intros; now rewrite parseCliOutput_eq, H1, H2, H3, H4 | eauto].
Qed.

Lemma fromFirstOpen_app a x :
  exists y, fromFirstOpen (a +:+ String "{" x) = Some (String "{" (y +:+ x)).
Proof.
  induction a as [|c a IH]; sapp; simpl.
  - exists "". reflexivity.
  - destruct (Ascii.eqb_spec c "{") as [->|Hne].
    + exists (a +:+ "{"). now rewrite append_assoc.
    + exact IH.
Qed.

(** X8.  The brace pattern finds nothing exactly when the text has no
    opening brace with a closing brace somewhere after it; what it finds
    starts at an opening brace, ends at a closing brace, and is a part of
    the text. *)
Theorem X8_matchBraces_finds_braces (text : string) :
  (matchBraces text = None <->
   ~ exists a b c, text = a +:+ "{" +:+ b +:+ "}" +:+ c) /\
  (forall m, matchBraces text = Some m ->
     exists a b c, text = a +:+ m +:+ c /\ m = "{" +:+ b +:+ "}").
Proof.
  split.
  - split.
    + intros Hn (a & b & c & ->).
      destruct (fromFirstOpen_app a (b +:+ "}" +:+ c)) as [y E].
      unfold matchBraces in Hn. sapp. rewrite E in Hn.
      destruct (throughLastClose (y +:+ b +:+ String "}" c)) eqn:E2; [discriminate|].
      apply throughLastClose_none in E2. rewrite !hasChar_app in E2.
      simpl in E2. rewrite !orb_true_r in E2. discriminate.
    + intros Hn. destruct (matchBraces text) as [m|] eqn:E; [|reflexivity].
      exfalso. apply Hn. apply matchBraces_spec in E as (pre & body & post & -> & _).
      eauto.
  - intros m E. apply matchBraces_spec in E as (pre & body & post & -> & -> & _).
    exists pre, body, post. split; [|reflexivity]. now rewrite !append_assoc.
Qed.

Lemma X8_witness :
  exists a b c,
    prose_json_chunk = a +:+ summary_done +:+ c /\ summary_done = "{" +:+ b +:+ "}".
Proof.
  apply (proj2 (X8_matchBraces_finds_braces prose_json_chunk) summary_done).
  reflexivity.
Defined.

(* --------------------------------------------------------------------- *)
(** *** The confirmation dialog *)

(** X9.  The confirmation dialog is shown exactly once and its message
    holds the text of the action verbatim; the function never throws (a
    failing dialog is a denial), and it approves exactly when the answer is
    the button Proceed. *)
Theorem X9_handleUserConfirmation_dialog
    (answer : JsError + option string) (text cid : string) :
  (exists message,
     confirmations (trace (handleUserConfirmation answer text cid)) = [message] /\
     exists pre post, message = pre +:+ text +:+ post) /\
  (exists approved,
     result (handleUserConfirmation answer text cid) = Return approved /\
     (approved = true <-> answer = inr (Some "Proceed"))) /\
  Forall (attributed cid)
    (skipn 1 (trace (handleUserConfirmation answer text cid))).
Proof.
  unfold handleUserConfirmation.
  destruct answer as [e|[c|]]; munfold.
  - split; [|split].
    + eexists. split; [reflexivity|].
      exists ("The AI wants to perform an action that may modify your system:"
              +:+ nl +:+ nl), (nl +:+ nl +:+ "Do you want to proceed?").
      rewrite !append_assoc. reflexivity.
    + exists false. split; [reflexivity|]. split; discriminate.
    + repeat constructor.
  - split; [|split].
    + eexists. split; [reflexivity|].
      exists ("The AI wants to perform an action that may modify your system:"
              +:+ nl +:+ nl), (nl +:+ nl +:+ "Do you want to proceed?").
      rewrite !append_assoc. reflexivity.
    + eexists. split; [reflexivity|].
      destruct (String.eqb_spec c "Proceed") as [->|Hne]; split; try tauto;
        try discriminate. intros [= ->]. contradiction.
    + repeat constructor.
  - split; [|split].
    + eexists. split; [reflexivity|].
      exists ("The AI wants to perform an action that may modify your system:"
              +:+ nl +:+ nl), (nl +:+ nl +:+ "Do you want to proceed?").
      rewrite !append_assoc. reflexivity.
    + exists false. split; [reflexivity|]. split; discriminate.
    + repeat constructor.
Qed.

(* --------------------------------------------------------------------- *)
(** *** The conversation written to the process *)

Lemma formatMessages_closed acc messages :
  formatMessages acc messages = acc +:+ concat (map messageLine messages).
Proof.
  revert acc; induction messages as [|m ms IH]; intros acc; simpl.
  - now rewrite append_nil_r.
  - rewrite IH. unfold messageLine. now rewrite !append_assoc.
Qed.

Lemma trimStart_first s a :
  firstChar (trimStart s) = Some a -> isJsSpace a = false.
Proof.
  induction s as [|b s IH]; simpl; [discriminate|].
  destruct (isJsSpace b) eqn:E; [exact IH|]. simpl. now intros [= <-].
Qed.

Lemma trimStart_fixed s :
  (forall a, firstChar s = Some a -> isJsSpace a = false) -> trimStart s = s.
Proof.
  destruct s as [|b s]; [reflexivity|]. intros H. simpl.
  now rewrite (H b eq_refl).
Qed.

Lemma trimEnd_first s a :
  (forall b, firstChar s = Some b -> isJsSpace b = false) ->
  firstChar (trimEnd s) = Some a -> isJsSpace a = false.
Proof.
  destruct s as [|b s]; simpl; [discriminate|]. intros H.
  specialize (H b eq_refl). rewrite H.
  destruct (trimEnd s); simpl; now intros [= <-].
Qed.

Lemma trimEnd_last s a : lastChar (trimEnd s) = Some a -> isJsSpace a = false.
Proof.
  induction s as [|b s IH]; simpl; [discriminate|].
  destruct (trimEnd s) as [|c t] eqn:E.
  - destruct (isJsSpace b) eqn:Hb; simpl; [discriminate|]. now intros [= <-].
  - exact IH.
Qed.

Lemma trimEnd_idempotent s : trimEnd (trimEnd s) = trimEnd s.
Proof.
  induction s as [|b s IH]; [reflexivity|]. simpl.
  destruct (trimEnd s) as [|c t] eqn:E.
  - destruct (isJsSpace b) eqn:Hb; [reflexivity|]. simpl. now rewrite Hb.
  - change (trimEnd (String b (String c t)))
      with (match trimEnd (String c t) with
            | EmptyString => if isJsSpace b then EmptyString else String b EmptyString
            | String x y => String b (String x y)
            end).
    now rewrite IH.
Qed.

Lemma trim_idempotent s : trim (trim s) = trim s.
Proof.
  unfold trim. rewrite (trimStart_fixed (trimEnd (trimStart s))).
  - apply trimEnd_idempotent.
  - intros a. apply trimEnd_first. intros b. apply trimStart_first.
Qed.

(** X10.  The prompt is the optional system line followed by one line per
    message, in the order of the messages, trimmed as a whole: it neither
    starts nor ends with white space, trimming it again changes nothing,
    and an empty system prompt with no messages gives the empty prompt. *)
Theorem X10_formatConversation_shape
    (systemPrompt : string) (messages : list MessageParam) :
  let prompt := formatConversation systemPrompt messages in
  prompt = trim ((if truthy systemPrompt
                  then "System: " +:+ systemPrompt +:+ nl +:+ nl else "")
                 +:+ concat (map messageLine messages)) /\
  trim prompt = prompt /\
  (forall a, firstChar prompt = Some a -> isJsSpace a = false) /\
  (forall a, lastChar prompt = Some a -> isJsSpace a = false) /\
  formatConversation "" [] = "".
Proof.
  cbv zeta. unfold formatConversation. rewrite formatMessages_closed.
  split; [|split; [|split; [|split]]].
  - destruct (truthy systemPrompt); reflexivity.
  - apply trim_idempotent.
  - intros a. unfold trim. apply trimEnd_first. intros b. apply trimStart_first.
  - intros a. unfold trim. apply trimEnd_last.
  - reflexivity.
Qed.

Lemma X10_witness :
  firstChar (formatConversation "" one_message) = Some "H"%char /\
  isJsSpace "H"%char = false.
Proof.
  split; [reflexivity|].
  apply (proj1 (proj2 (proj2 (X10_formatConversation_shape "" one_message)))
           "H"%char).
  reflexivity.
Defined.

(* --------------------------------------------------------------------- *)
(** *** Authentication, spawn and standard input of one invocation *)

Lemma spawned_app t1 t2 : spawned (t1 ++ t2) = spawned t1 ++ spawned t2.
Proof.
  induction t1 as [|e t1 IH]; [reflexivity|].
  destruct e; simpl; rewrite ?IH; reflexivity.
Qed.

Lemma stdinWrites_app t1 t2 :
  stdinWrites (t1 ++ t2) = stdinWrites t1 ++ stdinWrites t2.
Proof.
  induction t1 as [|e t1 IH]; [reflexivity|].
  destruct e; simpl; rewrite ?IH; reflexivity.
Qed.

Lemma authEffects_app t1 t2 :
  authEffects (t1 ++ t2) = authEffects t1 ++ authEffects t2.
Proof.
  induction t1 as [|e t1 IH]; [reflexivity|].
  destruct e; simpl; rewrite ?IH; reflexivity.
Qed.

Lemma supervision_silent cid t :
  Forall (supervision cid) t ->
  spawned t = [] /\ stdinWrites t = [] /\ authEffects t = [].
Proof.
  induction 1 as [|e t He _ (IH1 & IH2 & IH3)]; [repeat split|].
  destruct He; simpl; auto.
Qed.

Lemma execEnding_silent prompt cid events :
  spawned (fst (execEnding prompt cid events)) = [] /\
  stdinWrites (fst (execEnding prompt cid events)) = [] /\
  authEffects (fst (execEnding prompt cid events)) = [].
Proof.
  unfold execEnding. destruct (exitOf events) as [[e|code]|]; simpl; auto.
  destruct (bool_decide (code = Some 0%Z)); simpl; auto.
  destruct (truthy _); simpl; auto.
Qed.


(** One run calls [spawn] once and asks nothing of the authentication
    service; it writes the prompt once when [spawn] returns a process, and
    it neither sets a timer nor writes when [spawn] throws.  The listeners
    it leaves behind only supervise. *)
Lemma executeStatefulCli_protocol options h prompt cid :
  let run := executeStatefulCli options h prompt cid in
  spawned (during run) = [(buildCliArguments options, spawnEnv options h cid)] /\
  stdinWrites (during run)
  = match child h with inr _ => [prompt +:+ nl] | inl _ => [] end /\
  authEffects (during run) = [] /\
  Forall (supervision cid) (afterwards run) /\
  (forall e, child h = inl e -> forall ms, ~ In (SetTimeout ms) (during run)).
Proof.
  cbv zeta. pose proof (executeStatefulCli_spec options h prompt cid) as H.
  destruct (child h) as [e|events].
  - rewrite H. unfold during, afterwards. simpl. repeat split; try constructor.
    intros e0 _ ms [Hin|[Hin|[Hin|[]]]]; discriminate.
  - destruct H as (t & l & Ht & Hl & _ & _ & ->).
    unfold during, afterwards. cbn [fst snd].
    rewrite !spawned_app, !stdinWrites_app, !authEffects_app.
    destruct (supervision_silent cid t Ht) as (-> & -> & ->).
    destruct (execEnding_silent prompt cid events) as (-> & -> & ->).
    repeat split; [exact Hl | discriminate].
Qed.

Lemma ensureAuthentication_eq h cid :
  ensureAuthentication h cid =
  let prompt := ShowInformationMessage
    "Gemini CLI requires Google authentication. Would you like to authenticate now?" in
  let failed t (m : string) : M unit :=
    (t ++ [Log ERROR cid "Authentication failed"],
     Throw (newError ("Authentication failed: " +:+ m)), []) in
  let verified t : M unit :=
    (t ++ [Log INFO cid "Authentication verified"], Return tt, []) in
  match silentSession h with
  | inl e => failed [GetSession false] (err_message e)
  | inr (Some _) => verified [GetSession false]
  | inr None =>
      if bool_decide (infoChoice h = Some "Authenticate") then
        match createdSession h with
        | inr _ => verified [GetSession false; prompt; GetSession true]
        | inl e => failed [GetSession false; prompt; GetSession true] (err_message e)
        end
      else failed [GetSession false; prompt]
                  "Authentication required for Gemini CLI access"
  end.
Proof.
  unfold ensureAuthentication.
  destruct (silentSession h) as [e|[s|]]; munfold; try reflexivity.
  destruct (bool_decide (infoChoice h = Some "Authenticate")); munfold;
    [destruct (createdSession h) as [e|s]|]; reflexivity.
Qed.

(** The authentication check leaves no callback behind. *)
Lemma ensureAuthentication_afterwards h cid :
  afterwards (ensureAuthentication h cid) = [].
Proof.
  rewrite ensureAuthentication_eq. cbv zeta.
  destruct (silentSession h) as [e|[s|]]; try reflexivity.
  destruct (bool_decide _); [destruct (createdSession h)|]; reflexivity.
Qed.

Lemma createMessage_unfold options systemPrompt messages h :
  let cid := randomHex h in
  let auth := ensureAuthentication h cid in
  let exec := executeStatefulCli options h (formatConversation systemPrompt messages) cid in
  createMessage options systemPrompt messages h =
  match result auth with
  | Return _ =>
      match result exec with
      | Throw e => (trace auth ++ during exec ++ [Log ERROR cid "CLI execution failed"],
                    Throw (createUserFriendlyError e), afterwards exec)
      | o => (trace auth ++ during exec, o, afterwards exec)
      end
  | Throw e => (trace auth ++ [Log ERROR cid "CLI execution failed"],
                Throw (createUserFriendlyError e), [])
  | Pending => (trace auth, Pending, [])
  end.
Proof.
  cbv zeta. unfold createMessage.
  pose proof (ensureAuthentication_afterwards h (randomHex h)) as Hl.
  destruct (ensureAuthentication h (randomHex h)) as [[ta oa] la].
  unfold afterwards in Hl. simpl in Hl. subst la.
  destruct (executeStatefulCli options h _ (randomHex h)) as [[te oe] le].
  unfold trace, result, during, afterwards.
  destruct oa as [[]|e|]; destruct oe as [[]|e'|];
    munfold; rewrite <- ?app_assoc, ?app_nil_r; reflexivity.
Qed.

Lemma includes_prefix p rest : includes (p +:+ rest) p = true.
Proof. apply includes_spec. exists "", rest. reflexivity. Qed.

Lemma includes_suffix_mono pre s p :
  includes s p = true -> includes (pre +:+ s) p = true.
Proof.
  rewrite !includes_spec. intros (a & c & ->). exists (pre +:+ a), c.
  now rewrite append_assoc.
Qed.




(** X12.  When the authentication check fails, nothing is spawned, nothing
    is written and nothing is yielded; the error that surfaces is the
    authentication message, or the time-out message when the message of the
    failure holds the word timeout. *)
Theorem X12_no_spawn_without_authentication
    (options : GeminiCliHandlerOptions) (systemPrompt : string)
    (messages : list MessageParam) (h : Host) (e : JsError) :
  result (ensureAuthentication h (randomHex h)) = Throw e ->
  let run := createMessage options systemPrompt messages h in
  spawned (trace run) = [] /\ stdinWrites (trace run) = [] /\
  yields (trace run) = [] /\
  result run
  = Throw (newError (if includes (err_message e) "timeout"
                     then timedOutMessage else authenticationMessage)).
Proof.
  intros Ha. cbv zeta. rewrite createMessage_unfold. cbv zeta. rewrite Ha.
  rewrite trace_eq, result_eq, app_nil_r, spawned_app, stdinWrites_app, yields_app.
  destruct (ensureAuthentication_performs options h (randomHex h)) as [_ Hy].
  rewrite Hy. clear Hy.
  rewrite ensureAuthentication_eq in *. cbv zeta in *.
  assert (Hm : forall m, createUserFriendlyError (newError ("Authentication failed: " +:+ m))
     = newError (if includes ("Authentication failed: " +:+ m) "timeout"
                 then timedOutMessage else authenticationMessage)).
  { intros m. unfold createUserFriendlyError. cbn [err_code err_message newError].
    rewrite bool_decide_eq_false_2 by discriminate.
    destruct (includes _ "timeout"); [reflexivity|].
    assert (Hi : includes ("Authentication failed: " +:+ m) "Authentication" = true).
    { apply includes_spec. exists "", (" failed: " +:+ m). reflexivity. }
    now rewrite Hi. }
  destruct (silentSession h) as [e0|[s|]]; simpl in *.
  - injection Ha as <-. rewrite Hm. auto.
  - discriminate.
  - destruct (bool_decide _); [destruct (createdSession h) as [e0|s]|]; simpl in *;
      try discriminate; injection Ha as <-; rewrite Hm; auto.
Qed.

Lemma X12_witness :
  spawned (trace (createMessage plainOptions "" one_message
            (mkHost "00112233aabbccdd" ∅ (inr None) (Some "Cancel")
                    (inl (newError "not asked")) (inr dangerous_run)))) = [].
Proof.
  apply (X12_no_spawn_without_authentication plainOptions "" one_message
           (mkHost "00112233aabbccdd" ∅ (inr None) (Some "Cancel")
                   (inl (newError "not asked")) (inr dangerous_run))
           (newError "Authentication failed: Authentication required for Gemini CLI access")).
  reflexivity.
Defined.

Lemma createMessage_authEffects options systemPrompt messages h :
  authEffects (trace (createMessage options systemPrompt messages h))
  = authEffects (trace (ensureAuthentication h (randomHex h))).
Proof.
  rewrite createMessage_unfold. cbv zeta.
  destruct (executeStatefulCli_protocol options h
              (formatConversation systemPrompt messages) (randomHex h))
    as (_ & _ & Hx & Hl & _).
  destruct (supervision_silent _ _ Hl) as (_ & _ & Hx').
  destruct (result (ensureAuthentication h (randomHex h))) as [[]|e|];
    [destruct (result (executeStatefulCli _ _ _ _)) as [[]|e|]| |];
    rewrite trace_eq, ?authEffects_app, ?Hx, ?Hx', ?app_nil_r; reflexivity.
Qed.

(** X13.  An invocation asks for a session silently exactly once, first.
    The prompt to authenticate is shown only when that lookup finds no
    session, and a session is created only after the user chose the button
    Authenticate in that prompt. *)
Theorem X13_session_created_only_on_consent
    (options : GeminiCliHandlerOptions) (systemPrompt : string)
    (messages : list MessageParam) (h : Host) :
  let asked := authEffects (trace (createMessage options systemPrompt messages h)) in
  (exists rest, asked = GetSession false :: rest /\ ~ In (GetSession false) rest) /\
  ((exists m, In (ShowInformationMessage m) asked) <-> silentSession h = inr None) /\
  (In (GetSession true) asked <->
   silentSession h = inr None /\ infoChoice h = Some "Authenticate").
Proof.
  cbv zeta. rewrite createMessage_authEffects, ensureAuthentication_eq. cbv zeta.
  destruct (silentSession h) as [e|[s|]]; simpl.
  - split; [|split].
    + eexists. split; [reflexivity|]. intros [].
    + split; [intros [m [H|[]]]; discriminate | discriminate].
    + split; [intros [H|[]]; discriminate | intros [[=] _]].
  - split; [|split].
    + eexists. split; [reflexivity|]. intros [].
    + split; [intros [m [H|[]]]; discriminate | discriminate].
    + split; [intros [H|[]]; discriminate | intros [[=] _]].
  - destruct (bool_decide_reflect (infoChoice h = Some "Authenticate")) as [Hc|Hc];
      [destruct (createdSession h) as [e|s]|]; simpl.
    + split; [|split].
      * eexists. split; [reflexivity|]. simpl. intuition discriminate.
      * split; [reflexivity|]. intros _. eexists. right. left. reflexivity.
      * split; [auto|]. intros _. right. right. now left.
    + split; [|split].
      * eexists. split; [reflexivity|]. simpl. intuition discriminate.
      * split; [reflexivity|]. intros _. eexists. right. left. reflexivity.
      * split; [auto|]. intros _. right. right. now left.
    + split; [|split].
      * eexists. split; [reflexivity|]. simpl. intuition discriminate.
      * split; [reflexivity|]. intros _. eexists. right. left. reflexivity.
      * split; [|intros [_ H]; contradiction].
        intros [H|[H|[]]]; discriminate.
Qed.

Lemma createUserFriendlyError_forms e :
  err_code (createUserFriendlyError e) = None /\
  (err_message (createUserFriendlyError e) = notFoundMessage \/
   err_message (createUserFriendlyError e) = timedOutMessage \/
   err_message (createUserFriendlyError e) = authenticationMessage \/
   err_message (createUserFriendlyError e) = "Gemini CLI error: " +:+ err_message e).
Proof.
  unfold createUserFriendlyError.
  destruct (bool_decide _); [split; auto|].
  destruct (includes _ "timeout"); [split; auto|].
  destruct (includes _ "Authentication"); split; auto.
Qed.

(** X14.  Whatever goes wrong, the error that an invocation throws is one
    made by the user-friendly mapping: it has no system error code, and its
    message is the not-found message, the time-out message, the
    authentication message, or the generic prefix followed by the message
    of the underlying error. *)
Theorem X14_only_friendly_errors_surface
    (options : GeminiCliHandlerOptions) (systemPrompt : string)
    (messages : list MessageParam) (h : Host) (e : JsError) :
  result (createMessage options systemPrompt messages h) = Throw e ->
  err_code e = None /\
  (err_message e = notFoundMessage \/ err_message e = timedOutMessage \/
   err_message e = authenticationMessage \/
   exists m, err_message e = "Gemini CLI error: " +:+ m).
Proof.
  rewrite createMessage_unfold. cbv zeta.
  destruct (result (ensureAuthentication h (randomHex h))) as [[]|e0|];
    [destruct (result (executeStatefulCli _ _ _ _)) as [[]|e0|]| |];
    rewrite result_eq; try discriminate; intros [= <-];
    destruct (createUserFriendlyError_forms e0) as [Hc [H|[H|[H|H]]]]; eauto 6.
Qed.

Lemma X14_witness :
  err_code (newError "Gemini CLI error: Gemini CLI exited with code null. Error: ") = None /\
  (err_message (newError "Gemini CLI error: Gemini CLI exited with code null. Error: ")
   = notFoundMessage \/
   err_message (newError "Gemini CLI error: Gemini CLI exited with code null. Error: ")
   = timedOutMessage \/
   err_message (newError "Gemini CLI error: Gemini CLI exited with code null. Error: ")
   = authenticationMessage \/
   exists m,
     err_message (newError "Gemini CLI error: Gemini CLI exited with code null. Error: ")
     = "Gemini CLI error: " +:+ m).
Proof.
  apply (X14_only_friendly_errors_surface plainOptions "" one_message (retry_world 0)).
  reflexivity.
Defined.

(** X15.  When the process cannot be started or fails with an error event,
    an authenticated invocation yields nothing and throws the friendly form
    of that error; for a missing executable (code ENOENT) this is the
    not-found message, whatever the message of the system error. *)
Theorem X15_process_error_surfaces
    (options : GeminiCliHandlerOptions) (systemPrompt : string)
    (messages : list MessageParam) (h : Host) (e : JsError) :
  result (ensureAuthentication h (randomHex h)) = Return tt ->
  exitOf (procEvents h) = Some (inl e) ->
  let run := createMessage options systemPrompt messages h in
  yields (trace run) = [] /\
  result run = Throw (createUserFriendlyError e) /\
  (err_code e = Some "ENOENT" -> result run = Throw (newError notFoundMessage)).
Proof.
  intros Ha He. cbv zeta. rewrite createMessage_unfold. cbv zeta. rewrite Ha.
  destruct (ensureAuthentication_performs options h (randomHex h)) as [_ Hy].
  pose proof (executeStatefulCli_yields options h
                (formatConversation systemPrompt messages) (randomHex h)) as Hye.
  rewrite executeStatefulCli_result.
  destruct (exitOf_child _ _ He) as [events Hev].
  unfold procEvents in *. rewrite Hev in *.
  unfold execEnding in *. rewrite He in *.
  cbn [snd fst] in *. unfold trace in Hye. rewrite yields_app in Hye.
  apply app_eq_nil in Hye as [Hy1 Hy2].
  rewrite trace_eq, result_eq, !yields_app, Hy, Hy1, Hy2.
  repeat split. intros Hc. unfold createUserFriendlyError.
  now rewrite bool_decide_eq_true_2.
Qed.

Lemma X15_witness :
  result (createMessage plainOptions "" one_message
            (hostWith "00112233aabbccdd"
               [ProcError (mkError (Some "ENOENT") "spawn gemini ENOENT")]))
  = Throw (newError notFoundMessage).
Proof.
  apply (X15_process_error_surfaces plainOptions "" one_message
           (hostWith "00112233aabbccdd"
              [ProcError (mkError (Some "ENOENT") "spawn gemini ENOENT")])
           (mkError (Some "ENOENT") "spawn gemini ENOENT"));
    reflexivity.
Defined.

(* --------------------------------------------------------------------- *)
(** *** Timer, signal and the end of a run *)

Lemma kills_app t1 t2 : kills (t1 ++ t2) = kills t1 + kills t2.
Proof.
  induction t1 as [|e t1 IH]; [reflexivity|].
  destruct e; simpl; rewrite ?IH; reflexivity.
Qed.

Lemma clears_app t1 t2 : clears (t1 ++ t2) = clears t1 + clears t2.
Proof.
  induction t1 as [|e t1 IH]; [reflexivity|].
  destruct e; simpl; rewrite ?IH; reflexivity.
Qed.

Lemma logs_counts cid msgs :
  kills (map (Log INFO cid) msgs) = 0 /\ clears (map (Log INFO cid) msgs) = 0.
Proof. induction msgs; simpl; auto. Qed.

Lemma onStdoutData_counts cid d st :
  isComplete st = false ->
  kills (during (onStdoutData cid d st)) = 0 /\
  clears (during (onStdoutData cid d st)) = 0.
Proof.
  intros Hc. unfold onStdoutData. simpl. rewrite Hc. simpl.
  destruct (parseCliOutput_returns d cid) as (msgs & ev & E). rewrite E.
  destruct (logs_counts cid msgs) as [Hk Hl].
  destruct ev as [c|c [|]|c|c v|c]; munfold; unfold during; simpl;
    rewrite ?kills_app, ?clears_app, ?Hk, ?Hl; split; reflexivity.
Qed.

(** Signals and clearings of the timer during the wait and after it. *)
Lemma awaitExit_counts cid T events :
  forall st, isComplete st = false ->
  kills (during (awaitExit cid T events st)) = timerFirings events /\
  clears (during (awaitExit cid T events st))
  = match exitOf events with Some _ => 1 | None => 0 end /\
  kills (afterwards (awaitExit cid T events st)) = 0 /\
  clears (trace (awaitExit cid T events st)) = exits events.
Proof.
  induction events as [|ev events IH]; intros st Hc; [repeat split|].
  destruct ev as [d|d| |code|e]; simpl.
  - destruct (onStdoutData_counts cid d st Hc) as [Hk Hl].
    destruct (onStdoutData_eq cid d st Hc) as (t1 & E & _). rewrite E in *.
    unfold during in Hk, Hl. simpl in Hk, Hl.
    destruct (IH (mkCliState (output st +:+ d) (errorOutput st) false
                             (streamChunks st ++ [TextChunk d])) eq_refl)
      as (IHk & IHl & IHa & IHs).
    munfold.
    destruct (awaitExit cid T events _) as [[t2 o] l2].
    unfold trace, during, afterwards in *. simpl in *.
    rewrite ?kills_app, ?clears_app in *. repeat split; lia.
  - destruct (IH (mkCliState (output st) (errorOutput st +:+ d) (isComplete st)
                             (streamChunks st)) Hc) as (IHk & IHl & IHa & IHs).
    munfold. destruct (awaitExit cid T events _) as [[t2 o] l2].
    unfold trace, during, afterwards in *. simpl in *. repeat split; lia.
  - destruct (IH st Hc) as (IHk & IHl & IHa & IHs).
    munfold. unfold onTimeout. munfold.
    destruct (awaitExit cid T events _) as [[t2 o] l2].
    unfold trace, during, afterwards in *. simpl in *. repeat split; lia.
  - destruct (afterExit_spec cid events
                (mkCliState (output st) (errorOutput st) true (streamChunks st))
                eq_refl) as (l & E & _ & _ & Hn & Hl).
    unfold onClose, later. munfold. rewrite E.
    unfold trace, during, afterwards. simpl. rewrite ?app_nil_r.
    repeat split; simpl; lia.
  - destruct (afterExit_spec cid events
                (mkCliState (output st) (errorOutput st) true (streamChunks st))
                eq_refl) as (l & E & _ & _ & Hn & Hl).
    unfold onError, later. munfold. rewrite E.
    unfold trace, during, afterwards. simpl. rewrite ?app_nil_r.
    repeat split; simpl; lia.
Qed.

Lemma executeStatefulCli_trace options h prompt cid events :
  child h = inr events ->
  let wait := awaitExit cid (numOr (timeout options) 60000) events
                (mkCliState "" "" false []) in
  executeStatefulCli options h prompt cid
  = (execPrologue options h prompt cid ++ during wait
       ++ fst (execEnding prompt cid events),
     snd (execEnding prompt cid events), afterwards wait).
Proof.
  intros Hc. cbv zeta.
  destruct (awaitExit_spec cid (numOr (timeout options) 60000) events
              (mkCliState "" "" false []) eq_refl) as (t & l & _ & _ & _ & _ & E).
  rewrite E. unfold during, afterwards. cbn [fst snd].
  unfold executeStatefulCli, spawn, execEnding, execPrologue. rewrite Hc.
  munfold. rewrite E.
  destruct (exitOf events) as [[e|code]|];
    simpl; rewrite ?append_nil_l; cbv zeta;
    [| destruct (bool_decide (code = Some 0%Z));
       [destruct (truthy (trim (concat (stdoutChunks events))))|] |];
    simpl; rewrite <- ?app_assoc, ?app_nil_r; reflexivity.
Qed.

Lemma exits_none events : exits events = 0 -> exitOf events = None.
Proof.
  induction events as [|[d|d| |code|e] events IH]; simpl; auto; discriminate.
Qed.

Lemma exitOf_exits events : exitOf events = None -> exits events = 0.
Proof.
  induction events as [|[d|d| |code|e] events IH]; simpl; auto; discriminate.
Qed.

(** X16.  The process is sent one signal for each firing of the timer
    before it exits, and none later.  The timer is cleared once for every
    close and every error event that the process emits, because the
    listeners stay registered when the wait is settled: exactly once by the
    time the run goes on, and again for each later close or error.  A run
    whose process was spawned ends only when the process closes or reports
    an error: as long as it does neither, signal or not, the run neither
    returns nor throws, yields nothing and does not clear the timer.  When
    [spawn] throws, the run ends at once with that error and has set no
    timer, sent no signal and cleared nothing. *)
Theorem X16_run_ends_only_at_process_exit
    (options : GeminiCliHandlerOptions) (h : Host) (prompt cid : string) :
  let run := executeStatefulCli options h prompt cid in
  kills (trace run) = timerFirings (procEvents h) /\
  clears (trace run) = exits (procEvents h) /\
  (forall events, child h = inr events -> exitOf events = None ->
     result run = Pending /\ yields (trace run) = [] /\ clears (trace run) = 0) /\
  (exitOf (procEvents h) <> None ->
     result run <> Pending /\ clears (during run) = 1 /\
     kills (afterwards run) = 0 /\
     clears (afterwards run) = exits (procEvents h) - 1) /\
  (forall e, child h = inl e ->
     result run = Throw e /\
     forall ms, ~ In (SetTimeout ms) (trace run)).
Proof.
  cbv zeta. pose proof (executeStatefulCli_yields options h prompt cid) as Hy.
  pose proof (executeStatefulCli_spec options h prompt cid) as Hspec.
  unfold procEvents in *. destruct (child h) as [e|events] eqn:Hc.
  - rewrite Hspec. unfold trace, during, afterwards. simpl.
    split; [reflexivity|]. split; [reflexivity|].
    split; [intros events [=]|]. split; [intros H; contradiction|].
    intros e0 [= <-]. split; [reflexivity|].
    intros ms [Hin|[Hin|[Hin|[]]]]; discriminate.
  - clear Hspec.
    destruct (awaitExit_counts cid (numOr (timeout options) 60000) events
                (mkCliState "" "" false []) eq_refl) as (Hk & Hl & Ha & Hs).
    pose proof (executeStatefulCli_trace options h prompt cid events Hc) as Et.
    cbv zeta in Et. rewrite Et in *. clear Et.
    set (w := awaitExit cid (numOr (timeout options) 60000) events
                (mkCliState "" "" false [])) in *.
    clearbody w. destruct w as [[dw ow] aw].
    assert (Hz : kills (fst (execEnding prompt cid events)) = 0 /\
                 clears (fst (execEnding prompt cid events)) = 0).
    { unfold execEnding. destruct (exitOf events) as [[e|code]|]; simpl; auto.
      destruct (bool_decide _); simpl; auto. destruct (truthy _); simpl; auto. }
    destruct Hz as [Hz1 Hz2].
    unfold trace, result, during, afterwards in *. cbn [fst snd] in *.
    rewrite clears_app in Hs.
    rewrite !kills_app, !clears_app, Hz1, Hz2, Hk, Ha.
    unfold execPrologue. simpl.
    split; [lia|]. split; [lia|]. split; [|split].
    + intros events' [= <-] He. unfold execPrologue in Hy. simpl in Hy.
      rewrite Hy. pose proof (exitOf_exits _ He) as Hx.
      unfold execEnding. rewrite He in *. simpl. repeat split. lia.
    + intros He. split.
      * unfold execEnding. destruct (exitOf events) as [[e|code]|];
          [discriminate | | contradiction].
        destruct (bool_decide _); simpl; [|discriminate].
        destruct (truthy _); simpl; discriminate.
      * destruct (exitOf events); [|contradiction]. repeat split; lia.
    + intros e [=].
Qed.

Lemma X16_witness :
  clears (trace (executeStatefulCli plainOptions
            (hostWith "00112233aabbccdd" error_then_close)
            "Human: tidy up" "00112233aabbccdd")) = 2.
Proof.
  apply (proj1 (proj2 (X16_run_ends_only_at_process_exit plainOptions
           (hostWith "00112233aabbccdd" error_then_close)
           "Human: tidy up" "00112233aabbccdd"))).
Defined.

(** When the executable is missing, the invocation throws the not-found
    error once the error listener has run; the close listener runs
    afterwards, clears the timer a second time and writes its log line. *)
Example createMessage_error_then_close :
  let run := createMessage plainOptions "" one_message
               (hostWith "00112233aabbccdd" error_then_close) in
  result run = Throw (newError notFoundMessage) /\
  clears (during run) = 1 /\
  afterwards run
  = [ClearTimeout;
     Log INFO "00112233aabbccdd" "CLI process completed with exit code: -2"].
Proof. repeat split. Qed.

(** When the call of [spawn] throws, the invocation logs the failure twice
    and throws the user-friendly form of the error; no timer is set and
    nothing is written. *)
Example createMessage_spawn_throws :
  let run := createMessage plainOptions "" one_message rejecting_spawn_host in
  result run
  = Throw (newError ("Gemini CLI error: "
                     +:+ "The argument 'args[2]' must be a string without null bytes.")) /\
  map snd (spawned (trace run))
  = [ {[ "GEMINI_CLI_CORRELATION_ID" := "00112233aabbccdd";
         "GEMINI_CLI_MODE" := "interactive" ]} ] /\
  stdinWrites (trace run) = [] /\ clears (trace run) = 0 /\
  skipn 4 (trace run)
  = [Log ERROR "00112233aabbccdd" "CLI execution failed";
     Log ERROR "00112233aabbccdd" "CLI execution failed"].
Proof. cbv zeta. repeat split; vm_compute; reflexivity. Qed.

(* --------------------------------------------------------------------- *)
(** *** The authentication provider as a store of one session *)

Lemma getSessions_eq scopes p :
  getSessions scopes p
  = (p, inr match storedCredential p with Some s => [s] | None => [] end).
Proof.
  unfold getSessions, storedCredential. punfold. rewrite getStoredSession_eq.
  destruct (secretStorage p !! "gemini-oauth-session") as [[|s r]|]; simpl;
    try reflexivity.
  destruct (isValidSession s); reflexivity.
Qed.

(** X17.  [getSessions] never throws and never changes the provider; it
    returns at most one session, and a session it returns is the stored one
    and has a non-empty access token.  The requested scopes play no part. *)
Theorem X17_getSessions_read_only (scopes : list string) (p : Provider) :
  fst (getSessions scopes p) = p /\
  (exists l, snd (getSessions scopes p) = inr l /\ length l <= 1 /\
     forall s, In s l ->
       (exists t, accessToken s = Some t /\ t <> "") /\
       exists r, secretStorage p !! "gemini-oauth-session" = Some (SessionData s r)) /\
  (forall scopes', getSessions scopes' p = getSessions scopes p).
Proof.
  rewrite getSessions_eq. split; [reflexivity|]. split.
  - eexists. split; [reflexivity|]. unfold storedCredential.
    destruct (secretStorage p !! "gemini-oauth-session") as [[|s r]|]; simpl;
      try (split; [lia | intros ? []]).
    destruct (isValidSession s) eqn:Hv; simpl; [|split; [lia | intros ? []]].
    split; [lia|]. intros s' [<-|[]]. split; [|eauto].
    unfold isValidSession in Hv. destruct (accessToken s) as [t|]; [|discriminate].
    exists t. split; [reflexivity|]. intros ->. discriminate.
  - intros scopes'. now rewrite getSessions_eq.
Qed.

Lemma removeSession_eq sessionId p :
  removeSession sessionId p =
  match secretStorage p !! "gemini-oauth-session" with
  | Some (SessionData s _) =>
      if String.eqb (session_id s) sessionId then
        match deleteRejects p with
        | Some e => (p, inl e)
        | None =>
            (mkProvider (delete "gemini-oauth-session" (secretStorage p))
                        "$(key) Gemini: Not Authenticated"
                        (sessionChanges p ++ [mkChange [] [s]]) (invoked p)
                        (storeRejects p) (deleteRejects p),
             inr tt)
        end
      else (p, inr tt)
  | _ => (p, inr tt)
  end.
Proof.
  unfold removeSession, deleteSecret. punfold. rewrite getStoredSession_eq.
  destruct (secretStorage p !! "gemini-oauth-session") as [[|s r]|]; simpl;
    try reflexivity.
  destruct (String.eqb (session_id s) sessionId); [|reflexivity].
  destruct p as [sec sb ch inv sr [e|]]; reflexivity.
Qed.

(** X18.  When the stored session has the given id, [removeSession]
    deletes the stored session, so that [getSessions] then returns nothing,
    sets the status to not authenticated and fires one change that names
    the removed session; unless the storage rejects the deletion: then it
    throws the error of the storage and has changed nothing.  When the
    stored session has another id, or nothing readable is stored, it
    returns and changes nothing.  So it throws exactly when the stored
    session has the given id and the storage rejects the deletion. *)
Theorem X18_removeSession_deletes_matching
    (sessionId : string) (p : Provider) :
  let p' := fst (removeSession sessionId p) in
  let r := snd (removeSession sessionId p) in
  (forall s rt,
     secretStorage p !! "gemini-oauth-session" = Some (SessionData s rt) ->
     session_id s = sessionId ->
     match deleteRejects p with
     | None =>
         r = inr tt /\
         secretStorage p' = delete "gemini-oauth-session" (secretStorage p) /\
         snd (getSessions [] p') = inr [] /\
         sessionChanges p' = sessionChanges p ++ [mkChange [] [s]] /\
         statusBarText p' = "$(key) Gemini: Not Authenticated"
     | Some e => r = inl e /\ p' = p
     end) /\
  ((forall s rt,
      secretStorage p !! "gemini-oauth-session" = Some (SessionData s rt) ->
      session_id s <> sessionId) ->
   r = inr tt /\ p' = p) /\
  (forall e, r = inl e <->
     deleteRejects p = Some e /\
     exists s rt,
       secretStorage p !! "gemini-oauth-session" = Some (SessionData s rt) /\
       session_id s = sessionId).
Proof.
  cbv zeta. rewrite removeSession_eq. split; [|split].
  - intros s rt Hs Hid. rewrite Hs. subst sessionId. rewrite String.eqb_refl.
    destruct (deleteRejects p) as [e|]; simpl; [auto|].
    repeat split. rewrite getSessions_eq. unfold storedCredential. simpl.
    now rewrite lookup_delete_eq.
  - intros Hne.
    destruct (secretStorage p !! "gemini-oauth-session") as [[|s rt]|] eqn:E; auto.
    destruct (String.eqb_spec (session_id s) sessionId) as [Heq|Hn]; auto.
    exfalso. exact (Hne s rt eq_refl Heq).
  - intros e.
    destruct (secretStorage p !! "gemini-oauth-session") as [[|s rt]|] eqn:E; simpl.
    + split; [discriminate | intros (_ & s & rt & [=] & _)].
    + destruct (String.eqb_spec (session_id s) sessionId) as [Heq|Hn].
      * destruct (deleteRejects p) as [e'|]; simpl.
        -- split; [intros [= ->]; eauto | intros [[= ->] _]; reflexivity].
        -- split; [discriminate | intros [[=] _]].
      * simpl. split; [discriminate|].
        intros (_ & s' & rt' & [= <- _] & Hid). contradiction.
    + split; [discriminate | intros (_ & s & rt & [=] & _)].
Qed.

Lemma X18_witness :
  snd (removeSession "gemini-oauth-1700000000000" provider_after_consent) = inr tt /\
  secretStorage (fst (removeSession "gemini-oauth-1700000000000" provider_after_consent))
  = delete "gemini-oauth-session" (secretStorage provider_after_consent) /\
  snd (getSessions []
         (fst (removeSession "gemini-oauth-1700000000000" provider_after_consent)))
  = inr [] /\
  sessionChanges (fst (removeSession "gemini-oauth-1700000000000" provider_after_consent))
  = sessionChanges provider_after_consent
    ++ [mkChange [] [oauthSession consent_world granted_tokens]] /\
  statusBarText (fst (removeSession "gemini-oauth-1700000000000" provider_after_consent))
  = "$(key) Gemini: Not Authenticated".
Proof.
  apply (proj1 (X18_removeSession_deletes_matching
                  "gemini-oauth-1700000000000" provider_after_consent)
           (oauthSession consent_world granted_tokens) None);
    reflexivity.
Defined.

(** When the storage rejects the deletion, [removeSession] throws the
    error of the storage and the session stays stored. *)
Example removeSession_storage_rejects :
  removeSession "gemini-oauth-1700000000000" locked_provider
  = (locked_provider, inl quota_error).
Proof. reflexivity. Qed.

(** X19.  A session returned by [createSession] is the stored session
    afterwards: [getSessions] then returns exactly that session when it has
    a non-empty access token (and nothing when it has none), and removing it
    by its id empties the store, when the storage does not reject the
    deletion. *)
Theorem X19_created_session_is_stored
    (w : World) (scopes : list string) (p : Provider) (s : AuthenticationSession) :
  snd (createSession w scopes p) = inr s ->
  let p' := fst (createSession w scopes p) in
  (exists r, secretStorage p' !! "gemini-oauth-session" = Some (SessionData s r)) /\
  snd (getSessions scopes p') = inr (if isValidSession s then [s] else []) /\
  (deleteRejects p = None ->
   secretStorage (fst (removeSession (session_id s) p')) !! "gemini-oauth-session" = None).
Proof.
  intros Hr. cbv zeta.
  assert (Hkey : (exists r, secretStorage (fst (createSession w scopes p))
                              !! "gemini-oauth-session" = Some (SessionData s r)) /\
                 deleteRejects (fst (createSession w scopes p)) = deleteRejects p).
  { revert Hr. rewrite createSession_eq. cbv zeta. unfold storedCredential.
    destruct (secretStorage p !! "gemini-oauth-session") as [[|s0 r0]|] eqn:E;
      try destruct (isValidSession s0) eqn:Hv.
    2: { intros [= <-]. simpl. eauto. }
    all: destruct (apiKeyCredential w) as [s1|];
      [ destruct (storeRejects p); [discriminate|]; intros [= <-]; simpl;
        rewrite lookup_insert_eq; eauto
      | destruct (consentResult w (storeRejects p)) as [e|[s2 r2]];
        [discriminate|]; intros [= <-]; simpl; rewrite lookup_insert_eq; eauto ]. }
  destruct Hkey as [[r Hkey] Hd]. split; [eauto|]. split.
  - rewrite getSessions_eq. unfold storedCredential. rewrite Hkey.
    destruct (isValidSession s); reflexivity.
  - intros Hn. rewrite removeSession_eq, Hkey, String.eqb_refl, Hd, Hn. simpl.
    apply lookup_delete_eq.
Qed.

Lemma X19_witness :
  snd (getSessions SCOPES (fst (createSession api_key_world SCOPES noProvider)))
  = inr (if isValidSession (apiKeySession "AIza-key")
         then [apiKeySession "AIza-key"] else []).
Proof.
  apply (proj1 (proj2 (X19_created_session_is_stored api_key_world SCOPES noProvider
                         (apiKeySession "AIza-key") eq_refl))).
Defined.

(** X20.  The consent flow grants a session only for a callback that
    carries the pending state, a code and no error, and whose code was
    exchanged for tokens; the session then holds the access token of those
    tokens.  A callback with any other state settles nothing: the flow ends
    with the time-out error and the provider is left as it was. *)
Theorem X20_consent_needs_matching_state
    (w : World) (scopes : list string) (p : Provider) :
  (forall s, snd (performOAuthFlow w scopes p) = inr s ->
     exists request tokens,
       roundTrip w = CallbackArrives request (inr tokens) /\
       cb_state request = Some (oauthState w) /\
       present (cb_code request) = true /\ present (cb_error request) = false /\
       s = oauthSession w tokens /\ accessToken s = access_token tokens) /\
  (forall request exchange,
     roundTrip w = CallbackArrives request exchange ->
     cb_state request <> Some (oauthState w) ->
     performOAuthFlow w scopes p = (p, inl (newError "Authentication timeout"))).
Proof.
  split.
  - intros s. rewrite performOAuthFlow_eq.
    destruct (consentResult w (storeRejects p)) as [e|[s2 r2]] eqn:Hc; [discriminate|].
    intros [= <-].
    destruct (consentResult_inr _ _ _ _ Hc)
      as (_ & _ & rq & tokens & H1 & H2 & H3 & H4 & H5 & _).
    exists rq, tokens. repeat split; auto. now subst s2.
  - intros rq ex Hrt Hne. rewrite performOAuthFlow_eq. unfold consentResult.
    rewrite Hrt. now rewrite (bool_decide_eq_false_2 _ Hne).
Qed.

Lemma X20_witness :
  performOAuthFlow
    (mkWorld 1700000000000%Z ∅ "5ca1ab1e"
       (CallbackArrives (mkCallback None (Some "4/0AfJohXn") (Some "f0rged"))
                        (inr granted_tokens)) None)
    SCOPES noProvider
  = (noProvider, inl (newError "Authentication timeout")).
Proof.
  apply (proj2 (X20_consent_needs_matching_state
                  (mkWorld 1700000000000%Z ∅ "5ca1ab1e"
                     (CallbackArrives (mkCallback None (Some "4/0AfJohXn") (Some "f0rged"))
                                      (inr granted_tokens)) None)
                  SCOPES noProvider)
           (mkCallback None (Some "4/0AfJohXn") (Some "f0rged")) (inr granted_tokens)).
  - reflexivity.
  - discriminate.
Defined.

(** X21.  [createSession] touches no other secret than the stored session.
    When it fails it leaves the secrets and the fired changes as they were
    and sets the status to failed.  When it succeeds the status says
    authenticated, and a change is fired, naming the new session as added,
    exactly when the session came from the consent flow. *)
Theorem X21_createSession_side_effects
    (w : World) (scopes : list string) (p : Provider) :
  let p' := fst (createSession w scopes p) in
  (forall k, k <> "gemini-oauth-session" ->
     secretStorage p' !! k = secretStorage p !! k) /\
  (forall e, snd (createSession w scopes p) = inl e ->
     secretStorage p' = secretStorage p /\ sessionChanges p' = sessionChanges p /\
     statusBarText p' = "$(key) Gemini: Authentication Failed") /\
  (forall s, snd (createSession w scopes p) = inr s ->
     (statusBarText p' = "$(key) Gemini: Authenticated" \/
      statusBarText p' = "$(key) Gemini: Authenticated (API Key)") /\
     sessionChanges p'
     = sessionChanges p ++
       match storedCredential p, apiKeyCredential w with
       | None, None => [mkChange [s] []]
       | _, _ => []
       end).
Proof.
  cbv zeta. rewrite createSession_eq. cbv zeta.
  destruct (storedCredential p) as [s0|]; [|destruct (apiKeyCredential w) as [s1|];
    [destruct (storeRejects p) as [e0|]
    |destruct (consentResult w (storeRejects p)) as [e0|[s2 r2]]]]; simpl.
  - split; [auto|]. split.
    + intros e [=].
    + intros s [= <-]. split; [auto|]. now rewrite app_nil_r.
  - split; [auto|]. split.
    + intros e _. auto.
    + intros s [=].
  - split; [|split].
    + intros k Hk. now rewrite lookup_insert_ne.
    + intros e [=].
    + intros s [= <-]. split; [auto|]. now rewrite app_nil_r.
  - split; [auto|]. split.
    + intros e _. auto.
    + intros s [=].
  - split; [|split].
    + intros k Hk. now rewrite lookup_insert_ne.
    + intros e [=].
    + intros s [= <-]. auto.
Qed.

Lemma X21_witness :
  secretStorage (fst (createSession barren_world SCOPES noProvider))
  = secretStorage noProvider /\
  sessionChanges (fst (createSession barren_world SCOPES noProvider))
  = sessionChanges noProvider /\
  statusBarText (fst (createSession barren_world SCOPES noProvider))
  = "$(key) Gemini: Authentication Failed".
Proof.
  apply (proj1 (proj2 (X21_createSession_side_effects barren_world SCOPES noProvider))
           (newError "Authentication failed: Authentication timeout")).
  reflexivity.
Defined.

(** X22.  The client id and the client secret are taken from the settings
    when the setting is non-empty, and from the environment otherwise; the
    value returned is never empty, and the lookup fails exactly when
    neither place holds a non-empty value. *)
Theorem X22_client_credentials_resolution (config environment : gmap string string) :
  (forall id, getClientId config environment = inr id ->
     id <> "" /\
     (config !! "oauth.clientId" = Some id \/
      present (config !! "oauth.clientId") = false /\
      environment !! "GOOGLE_CLIENT_ID" = Some id)) /\
  ((exists e, getClientId config environment = inl e) <->
   present (config !! "oauth.clientId") = false /\
   present (environment !! "GOOGLE_CLIENT_ID") = false) /\
  (forall secret, getClientSecret config environment = inr secret ->
     secret <> "" /\
     (config !! "oauth.clientSecret" = Some secret \/
      present (config !! "oauth.clientSecret") = false /\
      environment !! "GOOGLE_CLIENT_SECRET" = Some secret)) /\
  ((exists e, getClientSecret config environment = inl e) <->
   present (config !! "oauth.clientSecret") = false /\
   present (environment !! "GOOGLE_CLIENT_SECRET") = false).
Proof.
  unfold getClientId, getClientSecret. cbv zeta.
  assert (H : forall a b (msg : string),
    (forall v, (if present (orElse a b) then inr (default "" (orElse a b))
                else inl (newError msg)) = inr v ->
       v <> "" /\ (a = Some v \/ present a = false /\ b = Some v)) /\
    ((exists e, (if present (orElse a b) then inr (default "" (orElse a b))
                 else @inl JsError string (newError msg)) = inl e) <->
     present a = false /\ present b = false)).
  { intros a b msg.
    destruct a as [[|c s]|]; simpl.
    2: { split; [intros v [= <-]; split; [discriminate | auto]|].
         split; [intros [e [=]] | intros [[=] _]]. }
    all: destruct b as [[|c' s']|]; simpl.
    all: split; [intros v Hv | split; [intros [e He] | intros [H1 H2]]].
    all: try discriminate.
    all: try (injection Hv as <-; split; [discriminate | auto]).
    all: eauto. }
  split; [apply H|]. split; [apply H|]. split; apply H.
Qed.

Lemma X22_witness :
  "env-id" <> "" /\
  (({[ "oauth.clientId" := "" ]} : gmap string string) !! "oauth.clientId" = Some "env-id" \/
   present (({[ "oauth.clientId" := "" ]} : gmap string string) !! "oauth.clientId") = false /\
   ({[ "GOOGLE_CLIENT_ID" := "env-id" ]} : gmap string string) !! "GOOGLE_CLIENT_ID"
   = Some "env-id").
Proof.
  apply (proj1 (X22_client_credentials_resolution
                  {[ "oauth.clientId" := "" ]} {[ "GOOGLE_CLIENT_ID" := "env-id" ]})).
  reflexivity.
Defined.

(* --------------------------------------------------------------------- *)
(** *** The proof of concept and the mock *)

Lemma poc_afterExit_spec events :
  exists l,
    GeminiCliPoc.afterExit events = (l, Return tt, []) /\
    yields l = [] /\ spawned l = [].
Proof.
  induction events as [|ev events (l & E & Hy & Hs)]; [exists []; repeat split|].
  destruct ev as [d|d| |code|x]; simpl; try (exists l; repeat split; assumption);
    munfold; rewrite E; exists (ClearTimeout :: l); repeat split; assumption.
Qed.

Lemma poc_awaitExit_spec events :
  forall o e,
  exists t l,
    yields t = [] /\ spawned t = [] /\ yields l = [] /\ spawned l = [] /\
    GeminiCliPoc.awaitExit events o e
    = (t, match exitOf events with
          | None => Pending
          | Some (inl x) => Throw x
          | Some (inr code) =>
              Return (o +:+ concat (stdoutChunks events),
                      e +:+ concat (stderrChunks events), code)
          end, l).
Proof.
  induction events as [|ev events IH]; intros o e.
  - exists [], []. repeat split.
  - destruct ev as [d|d| |code|x]; simpl.
    + destruct (IH (o +:+ d) e) as (t & l & Hy & Hs & Hyl & Hsl & ->). exists t, l.
      repeat split; auto. do 2 f_equal.
      destruct (exitOf events) as [[x|code]|]; try reflexivity.
      now rewrite append_assoc.
    + destruct (IH o (e +:+ d)) as (t & l & Hy & Hs & Hyl & Hsl & ->). exists t, l.
      repeat split; auto. do 2 f_equal.
      destruct (exitOf events) as [[x|code]|]; try reflexivity.
      now rewrite append_assoc.
    + destruct (IH o e) as (t & l & Hy & Hs & Hyl & Hsl & ->). munfold.
      exists (Kill "SIGTERM" :: t), l. repeat split; auto.
    + destruct (poc_afterExit_spec events) as (l & E & Hyl & Hsl).
      unfold later. munfold. rewrite E. unfold trace, during, afterwards. simpl.
      rewrite !append_nil_r, ?app_nil_r. exists [ClearTimeout], l. repeat split; auto.
    + destruct (poc_afterExit_spec events) as (l & E & Hyl & Hsl).
      unfold later. munfold. rewrite E. unfold trace, during, afterwards. simpl.
      rewrite ?app_nil_r. exists [ClearTimeout], l. repeat split; auto.
Qed.

Lemma poc_createMessage_eq options systemPrompt messages h :
  exists t l,
    yields t = [] /\ spawned t = [] /\ yields l = [] /\ spawned l = [] /\
    GeminiCliPoc.createMessage options systemPrompt messages h
    = let cliPath := strOr (geminiCliPath options) "gemini" in
      let timeout := numOr (timeout options) 30000 in
      let out := concat (stdoutChunks (procEvents h)) in
      let err := concat (stderrChunks (procEvents h)) in
      let failed e := Throw (GeminiCliPoc.mapError cliPath timeout e) in
      let call := Spawn cliPath ["--prompt"; GeminiCliPoc.testPrompt] (processEnv h) in
      match child h with
      | inl e => ([call], failed e, [])
      | inr _ =>
          match exitOf (procEvents h) with
          | None => (call :: SetTimeout timeout :: t, Pending, l)
          | Some (inl e) => (call :: SetTimeout timeout :: t, failed e, l)
          | Some (inr code) =>
              if negb (bool_decide (code = Some 0%Z)) then
                (call :: SetTimeout timeout :: t,
                 failed (newError ("Gemini CLI exited with code " +:+ showCode code
                                   +:+ ". Error: " +:+ err)), l)
              else if negb (truthy (trim out)) then
                (call :: SetTimeout timeout :: t,
                 failed (newError "Gemini CLI produced no output"), l)
              else
                (call :: SetTimeout timeout :: t
                   ++ [Yield (TextChunk out); Yield (UsageChunk 0 0 0 0)],
                 Return tt, l)
          end
      end.
Proof.
  destruct (poc_awaitExit_spec (procEvents h) "" "")
    as (t & l & Hy & Hs & Hyl & Hsl & E).
  exists t, l. repeat (split; [assumption|]).
  unfold GeminiCliPoc.createMessage, spawn. unfold procEvents in *.
  destruct (child h) as [e0|events]; [reflexivity|].
  munfold. rewrite E. cbv zeta.
  destruct (exitOf events) as [[e|code]|]; simpl; rewrite ?append_nil_l;
    [| destruct (bool_decide (code = Some 0%Z));
       [destruct (truthy (trim (concat (stdoutChunks events))))|] |];
    simpl; rewrite ?app_nil_r; reflexivity.
Qed.

Lemma poc_mapError_forms cliPath timeout e :
  err_code (GeminiCliPoc.mapError cliPath timeout e) = None /\
  startsWith (err_message (GeminiCliPoc.mapError cliPath timeout e)) "Gemini CLI " = true.
Proof.
  unfold GeminiCliPoc.mapError.
  destruct (bool_decide _); [split; reflexivity|].
  destruct (includes _ _); split; reflexivity.
Qed.

(** X23.  The proof of concept yields either nothing or the accumulated
    stdout as one text chunk followed by a usage chunk of zeros; it returns
    exactly when the process exits with code 0 and the stdout is not empty
    after trimming.  Every error it throws has no system error code and a
    message that starts with the words Gemini CLI, yields nothing, and for
    a missing executable names the configured path. *)
Theorem X23_poc_outcome
    (options : GeminiCliHandlerOptions) (systemPrompt : string)
    (messages : list MessageParam) (h : Host) :
  let run := GeminiCliPoc.createMessage options systemPrompt messages h in
  let out := concat (stdoutChunks (procEvents h)) in
  (result run = Return tt <->
   exitOf (procEvents h) = Some (inr (Some 0%Z)) /\ trim out <> "") /\
  (result run = Return tt ->
   yields (trace run) = [TextChunk out; UsageChunk 0 0 0 0]) /\
  (forall e, result run = Throw e ->
     yields (trace run) = [] /\ err_code e = None /\
     startsWith (err_message e) "Gemini CLI " = true) /\
  (forall e, exitOf (procEvents h) = Some (inl e) -> err_code e = Some "ENOENT" ->
     result run
     = Throw (newError ("Gemini CLI not found at path: "
                        +:+ strOr (geminiCliPath options) "gemini"
                        +:+ ". Please ensure Gemini CLI is installed and in your PATH."))).
Proof.
  cbv zeta.
  destruct (poc_createMessage_eq options systemPrompt messages h)
    as (t & l & Hy & _ & Hyl & _ & ->).
  cbv zeta. unfold procEvents. destruct (child h) as [e0|events].
  - rewrite result_eq, trace_eq. simpl. split; [|split; [|split]].
    + split; [discriminate | intros [[=] _]].
    + discriminate.
    + intros e' [= <-]. split; [reflexivity|]. apply poc_mapError_forms.
    + intros e [=].
  - destruct (exitOf events) as [[e|code]|].
    + rewrite result_eq, trace_eq. split; [|split; [|split]].
      * split; [discriminate | intros [[=] _]].
      * discriminate.
      * intros e' [= <-]. simpl. rewrite yields_app, Hy, Hyl.
        split; [reflexivity|]. apply poc_mapError_forms.
      * intros e' [= <-] Hc. unfold GeminiCliPoc.mapError.
        now rewrite bool_decide_eq_true_2.
    + destruct (bool_decide_reflect (code = Some 0%Z)) as [->|Hne]; cbn [negb].
      * destruct (truthy (trim _)) eqn:Ht; cbn [negb];
          rewrite result_eq, trace_eq; (split; [|split; [|split]]).
        -- split; [intros _; split; [reflexivity|] | reflexivity].
           intros Hs. rewrite Hs in Ht. discriminate.
        -- intros _. simpl. rewrite !yields_app, Hy, Hyl. reflexivity.
        -- discriminate.
        -- intros e [=].
        -- split; [discriminate|]. intros [_ Hs]. apply truthy_false in Ht.
           contradiction.
        -- discriminate.
        -- intros e' [= <-]. simpl. rewrite yields_app, Hy, Hyl.
           split; [reflexivity|].
           first [apply poc_mapError_forms | split; reflexivity].
        -- intros e [=].
      * rewrite result_eq, trace_eq. split; [|split; [|split]].
        -- split; [discriminate|]. intros [[= ->] _]. contradiction.
        -- discriminate.
        -- intros e' [= <-]. simpl. rewrite yields_app, Hy, Hyl.
           split; [reflexivity|].
           first [apply poc_mapError_forms | split; reflexivity].
        -- intros e [=].
    + rewrite result_eq, trace_eq. split; [|split; [|split]].
      * split; [discriminate | intros [[=] _]].
      * discriminate.
      * discriminate.
      * intros e [=].
Qed.

Lemma X23_witness :
  yields (trace (GeminiCliPoc.createMessage plainOptions "" one_message
                   (hostWith "00112233aabbccdd" three_chunks)))
  = [TextChunk (concat (stdoutChunks three_chunks)); UsageChunk 0 0 0 0].
Proof.
  apply (proj1 (proj2 (X23_poc_outcome plainOptions "" one_message
                         (hostWith "00112233aabbccdd" three_chunks)))).
  reflexivity.
Defined.

(** X24.  The proof of concept spawns one process whose arguments are the
    flag [--prompt] and the hard-coded test prompt, whatever conversation it
    is given, and the mock reads exactly that test prompt from these
    arguments. *)
Theorem X24_poc_arguments_reach_the_mock
    (options : GeminiCliHandlerOptions) (systemPrompt : string)
    (messages : list MessageParam) (h : Host) :
  (let args := ["--prompt"; GeminiCliPoc.testPrompt] in
   spawned (trace (GeminiCliPoc.createMessage options systemPrompt messages h))
   = [(args, processEnv h)] /\
   parsePrompt args = GeminiCliPoc.testPrompt) /\
  (forall systemPrompt' messages',
     GeminiCliPoc.createMessage options systemPrompt' messages' h
     = GeminiCliPoc.createMessage options systemPrompt messages h).
Proof.
  split; [|reflexivity].
  destruct (poc_createMessage_eq options systemPrompt messages h)
    as (t & l & _ & Hs & _ & Hsl & ->).
  cbv zeta. split; [|reflexivity].
  destruct (child h) as [e0|events]; [reflexivity|].
  destruct (exitOf (procEvents h)) as [[e|code]|];
    [| destruct (negb (bool_decide (code = Some 0%Z)));
       [|destruct (negb (truthy (trim _)))] |];
    rewrite trace_eq; simpl; rewrite ?spawned_app, Hs, ?Hsl; reflexivity.
Qed.
